(** * DmxController: a shallow embedding of [_archive/py/controller.py]

    The Python class [DmxController] keeps an array of DMX channel values
    ([current_state]), an optional serial handle ([serial_port]) and the
    channel count ([num_channels]).  Every method prints diagnostics, may
    mutate the array and may hand a packet to the serial port.  The
    methods are embedded as computations in a small state / output /
    exception monad; Python integers are [Z], the channel array is a
    [list Z] indexed the way Python indexes lists, mode dictionaries are
    association lists in insertion order. *)

From Stdlib Require Import ZArith String Lia.
From stdpp Require Import base list.

Local Open Scope string_scope.
Local Open Scope list_scope.
Local Open Scope Z_scope.

(** ** The object *)

(** The [serial.Serial] handle.  Only one thing about it matters to the
    controller: writing to a handle whose port is not open raises a
    [SerialException]. *)
Record Serial := { is_open : bool }.

Record DmxController := {
  num_channels : Z;
  serial_port : option Serial;
  current_state : list Z
}.

(** ** What a method can do besides changing the object *)

(** The texts handed to [print], one constructor per format string of the
    source, carrying the interpolated values. *)
Inductive message :=
| MsgNotConnected                                   (* "Error: Not connected to a DMX device." *)
| MsgInvalidChannelOrValue (channel value : Z)      (* "Warning: Invalid channel (..) or value (..). Skipping." *)
| MsgSendError                                      (* "Error sending DMX packet: .." *)
| MsgInvalidChannelNumber (channel : Z)             (* "Warning: Invalid channel number: .." *)
| MsgInvalidMode (what mode : string) (choices : list string)
                                                    (* "Invalid <what>: <mode>. Choose from: .." *)
| MsgRequiresValue (mode : string) (lo hi : Z)      (* "Mode '..' requires a value between .. Using the minimum value." *)
| MsgInvalidLaser                                   (* "Invalid laser number. Must be 1 or 2." *)
| MsgUsingDefault (value : Z) (mode : string) (lo hi : Z)
                                                    (* "Using default value .. for .. (range: ..-..)" *)
| MsgValueOutOfRange (value : Z) (mode : string) (lo hi : Z)
                                                    (* "Value .. is out of range for .. (range: ..-..)" *)
| MsgInvalidGallery                                 (* "Invalid gallery number. Must be 0 or 1." *)
| MsgNRequired                                      (* "For 'change_every_n' mode, you must specify a value for N." *)
| MsgNOutOfRange                                    (* "Value for 'change_every_n' must be between 1 and 255." *)
| MsgInvalidColorMode                               (* "Invalid mode. Choose from 'primary', 'change_every_n'." *)
| MsgExpansionOutOfRange                            (* "Expansion value must be between 0 and 255." *)
| MsgDelayRequired                                  (* "Delay value is required when CH15 is >= 128." *)
| MsgDelayOutOfRange                                (* "Delay value must be between 0 and 255." *)
| MsgManualRequired (mode : string)                 (* "Manual expansion value is required for '..' mode." *)
| MsgManualOutOfRange (mode : string)               (* "Manual expansion value is out of range for '..'." *)
| MsgMustSetChannel (channel : Z)                   (* "Must set channel 14|31 before using manual expansion." *)
| MsgDegreeOutOfRange                               (* "Degree of distortion must be between 0 and 255." *)
| MsgPatternOutOfRange                              (* "Pattern value must be between 0 and 255." *)
| MsgOnlyDefault                                    (* "Invalid mode. Only 'default' is supported." *)
| MsgDisconnected                                   (* "Disconnected from DMX device." *)
| MsgNoDevice.                                      (* "Not connected to a DMX device." *)

Inductive event :=
| Print (m : message)
| SerialWrite (packet : list Z)
| SerialClose.

(** The Python exceptions that can escape a method when its arguments are
    integers, strings and [None]. *)
Inductive exn := IndexError | TypeError | ValueError.

(** The error kinds of the design document, and the diagnostic each one
    stands for in the source (which prints instead of raising). *)
Inductive ErrorKind :=
| OutOfRange | UnknownMode | ValueOutOfRange | MissingRequiredValue | PreconditionNotMet.

Definition error_kind (m : message) : option ErrorKind :=
  match m with
  | MsgInvalidChannelOrValue _ _ | MsgInvalidChannelNumber _ => Some OutOfRange
  | MsgInvalidMode _ _ _ | MsgInvalidColorMode | MsgOnlyDefault => Some UnknownMode
  | MsgValueOutOfRange _ _ _ _ | MsgNOutOfRange | MsgExpansionOutOfRange
  | MsgDelayOutOfRange | MsgManualOutOfRange _ | MsgDegreeOutOfRange
  | MsgPatternOutOfRange => Some ValueOutOfRange
  | MsgNRequired | MsgDelayRequired | MsgManualRequired _ => Some MissingRequiredValue
  | MsgMustSetChannel _ => Some PreconditionNotMet
  | _ => None
  end.

(** ** The monad *)

Definition result (A : Type) : Type := DmxController * list event * (exn + A).

Definition M (A : Type) : Type := DmxController → result A.

Definition final {A} (r : result A) : DmxController := r.1.1.
Definition output {A} (r : result A) : list event := r.1.2.
Definition outcome {A} (r : result A) : exn + A := r.2.

#[export] Instance M_ret : MRet M := λ A a s, (s, [], inr a).

#[export] Instance M_bind : MBind M := λ A B f m s,
  match m s with
  | (s1, out1, inl e) => (s1, out1, inl e)
  | (s1, out1, inr a) =>
      match f a s1 with
      | (s2, out2, r) => (s2, out1 ++ out2, r)
      end
  end.

Definition self : M DmxController := λ s, (s, [], inr s).
Definition emit (e : event) : M unit := λ s, (s, [e], inr tt).
Definition print (m : message) : M unit := emit (Print m).
Definition raise {A} (e : exn) : M A := λ s, (s, [], inl e).
Definition set_current_state (l : list Z) : M unit := λ s,
  ({| num_channels := num_channels s; serial_port := serial_port s;
      current_state := l |}, [], inr tt).
Definition set_serial_port (p : option Serial) : M unit := λ s,
  ({| num_channels := num_channels s; serial_port := p;
      current_state := current_state s |}, [], inr tt).

(** ** Python lists, byte arrays and dictionaries *)

(** [l[i]]: an index counts from the end when negative and is an
    [IndexError] outside [-len, len). *)
Definition py_index (len : nat) (i : Z) : option nat :=
  if (0 <=? i) && (i <? Z.of_nat len) then Some (Z.to_nat i)
  else if (i <? 0) && (- Z.of_nat len <=? i) then Some (Z.to_nat (Z.of_nat len + i))
  else None.

(** [self.current_state[i]] *)
Definition getitem (i : Z) : M Z :=
  s ← self;
  match py_index (length (current_state s)) i with
  | Some n =>
      match current_state s !! n with
      | Some v => mret v
      | None => raise IndexError
      end
  | None => raise IndexError
  end.

(** [self.current_state[i] = v] *)
Definition setitem (i v : Z) : M unit :=
  s ← self;
  match py_index (length (current_state s)) i with
  | Some n => set_current_state (<[n := v]> (current_state s))
  | None => raise IndexError
  end.

Definition is_byte (x : Z) : bool := (0 <=? x) && (x <? 256).

(** [b.extend(items)] on a [bytearray]: every item must be in
    [range(256)], else [ValueError]. *)
Definition bytearray_extend (b items : list Z) : exn + list Z :=
  if forallb is_byte items then inr (b ++ items) else inl ValueError.

(** [d.get(k)] on a dictionary written as a literal, entries in order. *)
Fixpoint dict_get {V} (d : list (string * V)) (k : string) : option V :=
  match d with
  | [] => None
  | (k', v) :: rest => if String.eqb k k' then Some v else dict_get rest k
  end.

Definition keys {V} (d : list (string * V)) : list string := map fst d.

(** ** Construction *)

(** [__init__], once port detection and [_connect] (both outside the
    model) have produced a handle or [None]:
    [self.current_state = [0] * self.num_channels]. *)
Definition new_controller (n : Z) (handle : option Serial) : DmxController :=
  {| num_channels := n; serial_port := handle;
     current_state := replicate (Z.to_nat n) 0 |}.

(** ** Channel state and packet sending *)

Definition disconnect : M unit :=
  s ← self;
  match serial_port s with
  | Some _ => emit SerialClose;; print MsgDisconnected;; set_serial_port None
  | None => print MsgNoDevice
  end.

(** The [for channel, value in channel_values.items()] loop. *)
Fixpoint update_channels (items : list (Z * Z)) : M unit :=
  match items with
  | [] => mret tt
  | (channel, value) :: rest =>
      s ← self;
      (if (1 <=? channel) && (channel <=? num_channels s)
          && ((0 <=? value) && (value <=? 255))
       then setitem (channel - 1) value
       else print (MsgInvalidChannelOrValue channel value));;
      update_channels rest
  end.

(** Lines 103-105: start code, then the channel data. *)
Definition build_packet (state : list Z) : exn + list Z :=
  bytearray_extend [0] state.

(** [self.serial_port.write(packet)] inside [try/except SerialException]. *)
Definition serial_write (port : Serial) (packet : list Z) : M unit :=
  if is_open port then emit (SerialWrite packet) else print MsgSendError.

Definition send_dmx_packet (channel_values : option (list (Z * Z))) : M unit :=
  s ← self;
  match serial_port s with
  | None => print MsgNotConnected
  | Some port =>
      match channel_values with
      | Some (item :: rest) => update_channels (item :: rest)
      | _ => mret tt
      end;;
      s' ← self;
      match build_packet (current_state s') with
      | inr packet => serial_write port packet
      | inl e => raise e
      end
  end.

Definition set_channel (channel value : Z) : M unit :=
  send_dmx_packet (Some [(channel, value)]).

Definition get_channel_value (channel : Z) : M (option Z) :=
  s ← self;
  if (1 <=? channel) && (channel <=? num_channels s)
  then v ← getitem (channel - 1); mret (Some v)
  else print (MsgInvalidChannelNumber channel);; mret None.

(** ** Laser functions *)

(** The shape shared by the methods that look a mode up in a table of
    sub-ranges: the body after [mode_range = modes[mode]]. *)
Definition in_range (mode_range : Z * Z) (value : Z) : bool :=
  (mode_range.1 <=? value) && (value <=? mode_range.2).

(** *** Channel 1 *)

(** The entry ["off": 0] is a scalar, the others are tuples. *)
Inductive lamp_entry := Scalar (v : Z) | Range (r : Z * Z).

Definition lamp_modes : list (string * lamp_entry) :=
  [ ("off", Scalar 0);
    ("manual", Range (1, 99));
    ("dynamic_sound", Range (100, 199));
    ("tune_program", Range (200, 219));
    ("sound_program", Range (220, 249));
    ("off_end", Range (250, 255)) ].

Definition set_lamp_mode (mode : string) : M unit :=
  match dict_get lamp_modes mode with
  | None => print (MsgInvalidMode "mode" mode (keys lamp_modes))
  | Some (Scalar value) => set_channel 1 value
  | Some (Range value) =>
      print (MsgRequiresValue mode value.1 value.2);;
      set_channel 1 value.1
  end.

(** *** Channel 2 or 19 *)

Definition pattern_size_modes : list (string * (Z * Z)) :=
  [ ("parts_blank", (0, 49));
    ("returns", (50, 99));
    ("folds", (100, 149));
    ("crossing", (150, 199));
    ("blanking", (200, 255)) ].

Definition set_pattern_size (laser_num : Z) (size_mode : string) (value : option Z)
  : M unit :=
  if negb ((laser_num =? 1) || (laser_num =? 2)) then print MsgInvalidLaser
  else
    let channel := if laser_num =? 1 then 2 else 19 in
    match dict_get pattern_size_modes size_mode with
    | None => print (MsgInvalidMode "size mode" size_mode (keys pattern_size_modes))
    | Some mode_range =>
        match value with
        | None =>
            let value := mode_range.1 in
            print (MsgUsingDefault value size_mode mode_range.1 mode_range.2);;
            set_channel channel value
        | Some value =>
            if negb (in_range mode_range value)
            then print (MsgValueOutOfRange value size_mode mode_range.1 mode_range.2)
            else set_channel channel value
        end
    end.

(** *** Channel 3 *)

Definition select_gallery (gallery_num : Z) : M unit :=
  if gallery_num =? 0 then set_channel 3 0
  else if gallery_num =? 1 then set_channel 3 240
  else print MsgInvalidGallery.

(** *** Channel 4 or 21 *)

Definition select_pattern (laser_num pattern_index : Z) : M unit :=
  let channel := if laser_num =? 1 then 4 else 21 in
  set_channel channel pattern_index.

(** *** Channel 5 or 22 *)

Definition pattern_zooming_modes : list (string * (Z * Z)) :=
  [ ("static", (0, 127));
    ("zoom_in", (128, 159));
    ("zoom_out", (160, 191));
    ("flip_zooming", (192, 255)) ].

Definition set_pattern_zooming (laser_num : Z) (zoom_mode : string) (value : option Z)
  : M unit :=
  let channel := if laser_num =? 1 then 5 else 22 in
  match dict_get pattern_zooming_modes zoom_mode with
  | None => print (MsgInvalidMode "zoom mode" zoom_mode (keys pattern_zooming_modes))
  | Some mode_range =>
      match value with
      | None =>
          let value := mode_range.1 in
          print (MsgUsingDefault value zoom_mode mode_range.1 mode_range.2);;
          set_channel channel value
      | Some value =>
          if negb (in_range mode_range value)
          then print (MsgValueOutOfRange value zoom_mode mode_range.1 mode_range.2)
          else set_channel channel value
      end
  end.

(** *** Channel 6 or 23 *)

Definition pattern_rotation_modes : list (string * (Z * Z)) :=
  [ ("static", (0, 127));
    ("dynamic_inversion", (128, 255)) ].

Definition set_pattern_rotation (laser_num : Z) (rotation_mode : string)
  (value : option Z) : M unit :=
  let channel := if laser_num =? 1 then 6 else 23 in
  match dict_get pattern_rotation_modes rotation_mode with
  | None =>
      print (MsgInvalidMode "rotation mode" rotation_mode (keys pattern_rotation_modes))
  | Some mode_range =>
      match value with
      | None =>
          let value := mode_range.1 in
          print (MsgUsingDefault value rotation_mode mode_range.1 mode_range.2);;
          set_channel channel value
      | Some value =>
          if negb (in_range mode_range value)
          then print (MsgValueOutOfRange value rotation_mode mode_range.1 mode_range.2)
          else set_channel channel value
      end
  end.

(** *** Channel 7 or 24 *)

Definition horizontal_movement_modes : list (string * (Z * Z)) :=
  [ ("static", (0, 127));
    ("push_up", (128, 159));
    ("push_down", (160, 191));
    ("left_shift", (192, 223));
    ("right_shift", (224, 255)) ].

Definition set_horizontal_movement (laser_num : Z) (movement_mode : string)
  (value : option Z) : M unit :=
  let channel := if laser_num =? 1 then 7 else 24 in
  match dict_get horizontal_movement_modes movement_mode with
  | None =>
      print (MsgInvalidMode "movement mode" movement_mode (keys horizontal_movement_modes))
  | Some mode_range =>
      match value with
      | None =>
          let value := mode_range.1 in
          print (MsgUsingDefault value movement_mode mode_range.1 mode_range.2);;
          set_channel channel value
      | Some value =>
          if negb (in_range mode_range value)
          then print (MsgValueOutOfRange value movement_mode mode_range.1 mode_range.2)
          else set_channel channel value
      end
  end.

(** *** Channel 8 or 25 *)

Definition vertical_movement_modes : list (string * (Z * Z)) :=
  [ ("static", (0, 127));
    ("right_push", (128, 159));
    ("left_push", (160, 191));
    ("move_up", (192, 223));
    ("move_down", (224, 255)) ].

Definition set_vertical_movement (laser_num : Z) (movement_mode : string)
  (value : option Z) : M unit :=
  let channel := if laser_num =? 1 then 8 else 25 in
  match dict_get vertical_movement_modes movement_mode with
  | None =>
      print (MsgInvalidMode "movement mode" movement_mode (keys vertical_movement_modes))
  | Some mode_range =>
      match value with
      | None =>
          let value := mode_range.1 in
          print (MsgUsingDefault value movement_mode mode_range.1 mode_range.2);;
          set_channel channel value
      | Some value =>
          if negb (in_range mode_range value)
          then print (MsgValueOutOfRange value movement_mode mode_range.1 mode_range.2)
          else set_channel channel value
      end
  end.

(** *** Channel 9 *)

Definition horizontal_zooming_modes : list (string * (Z * Z)) :=
  [ ("static", (0, 127));
    ("push_up_distortion", (128, 159));
    ("push_down_distortion", (160, 191));
    ("zooming", (192, 223));
    ("flip_zooming", (224, 255)) ].

Definition set_horizontal_zooming (zoom_mode : string) (value : option Z) : M unit :=
  match dict_get horizontal_zooming_modes zoom_mode with
  | None => print (MsgInvalidMode "zoom mode" zoom_mode (keys horizontal_zooming_modes))
  | Some mode_range =>
      match value with
      | None =>
          let value := mode_range.1 in
          print (MsgUsingDefault value zoom_mode mode_range.1 mode_range.2);;
          set_channel 9 value
      | Some value =>
          if negb (in_range mode_range value)
          then print (MsgValueOutOfRange value zoom_mode mode_range.1 mode_range.2)
          else set_channel 9 value
      end
  end.

(** *** Channel 10 *)

Definition vertical_zooming_modes : list (string * (Z * Z)) :=
  [ ("static", (0, 127));
    ("right_push_distortion", (128, 159));
    ("left_push_distortion", (160, 191));
    ("zoom", (192, 223));
    ("dynamic_flip_zooming", (224, 255)) ].

Definition set_vertical_zooming (zoom_mode : string) (value : option Z) : M unit :=
  match dict_get vertical_zooming_modes zoom_mode with
  | None => print (MsgInvalidMode "zoom mode" zoom_mode (keys vertical_zooming_modes))
  | Some mode_range =>
      match value with
      | None =>
          let value := mode_range.1 in
          print (MsgUsingDefault value zoom_mode mode_range.1 mode_range.2);;
          set_channel 10 value
      | Some value =>
          if negb (in_range mode_range value)
          then print (MsgValueOutOfRange value zoom_mode mode_range.1 mode_range.2)
          else set_channel 10 value
      end
  end.

(** *** Channel 11 or 28 *)

Definition set_forced_color (laser_num : Z) (mode : string) (value : option Z)
  : M unit :=
  let channel := if laser_num =? 1 then 11 else 28 in
  if String.eqb mode "primary" then set_channel channel 0
  else if String.eqb mode "change_every_n" then
    match value with
    | None => print MsgNRequired
    | Some value =>
        if negb ((1 <=? value) && (value <=? 255)) then print MsgNOutOfRange
        else set_channel channel value
    end
  else print MsgInvalidColorMode.

(** *** Channel 12 *)

Definition strobe_flash_modes : list (string * (Z * Z)) :=
  [ ("off", (0, 15));
    ("strobe", (16, 131));
    ("random_flash", (132, 147));
    ("sound_strobe", (148, 199));
    ("sound_random_flash", (200, 215));
    ("on", (216, 255)) ].

Definition set_strobe_flash (mode : string) (value : option Z) : M unit :=
  match dict_get strobe_flash_modes mode with
  | None => print (MsgInvalidMode "mode" mode (keys strobe_flash_modes))
  | Some mode_range =>
      match value with
      | None =>
          let value := mode_range.1 in
          print (MsgUsingDefault value mode mode_range.1 mode_range.2);;
          set_channel 12 value
      | Some value =>
          if negb (in_range mode_range value)
          then print (MsgValueOutOfRange value mode mode_range.1 mode_range.2)
          else set_channel 12 value
      end
  end.

(** *** Channel 13 or 30 *)

(** The source comments on the third entry: "The CSV lists 128-159, but
    with 224-255 reserved, it is likely a typo." *)
Definition node_highlighting_modes : list (string * (Z * Z)) :=
  [ ("brighter", (0, 63));
    ("broken_lines", (64, 127));
    ("scanning_line", (128, 223)) ].

Definition set_node_highlighting (laser_num : Z) (mode : string) (value : option Z)
  : M unit :=
  let channel := if laser_num =? 1 then 13 else 30 in
  match dict_get node_highlighting_modes mode with
  | None => print (MsgInvalidMode "mode" mode (keys node_highlighting_modes))
  | Some mode_range =>
      match value with
      | None =>
          let value := mode_range.1 in
          print (MsgUsingDefault value mode mode_range.1 mode_range.2);;
          set_channel channel value
      | Some value =>
          if negb (in_range mode_range value)
          then print (MsgValueOutOfRange value mode mode_range.1 mode_range.2)
          else set_channel channel value
      end
  end.

(** *** Channel 14 or 31 *)

(** [x >= 128] where [x] is what [get_channel_value] returned: comparing
    [None] with an integer is a [TypeError]. *)
Definition ge_int (x : option Z) (n : Z) : M bool :=
  match x with
  | Some v => mret (n <=? v)
  | None => raise TypeError
  end.

Definition set_node_expansion (laser_num expansion_value : Z) (delay_value : option Z)
  : M unit :=
  let channel := if laser_num =? 1 then 14 else 31 in
  if negb ((0 <=? expansion_value) && (expansion_value <=? 255))
  then print MsgExpansionOutOfRange
  else
    x ← get_channel_value (if laser_num =? 1 then 15 else 32);
    b ← ge_int x 128;
    if (b : bool) then
      match delay_value with
      | None => print MsgDelayRequired
      | Some delay_value =>
          if negb ((0 <=? delay_value) && (delay_value <=? 255))
          then print MsgDelayOutOfRange
          else set_channel channel delay_value
      end
    else set_channel channel expansion_value.

(** *** Channel 15 or 32 *)

Definition gradual_drawing_modes : list (string * (Z * Z)) :=
  [ ("forward_manual", (0, 63));
    ("reverse_manual", (64, 127));
    ("dynamic_A", (128, 159));
    ("dynamic_B", (160, 191));
    ("dynamic_C", (192, 223));
    ("dynamic_D", (224, 255)) ].

(** [x == 0] where [x] is what [get_channel_value] returned: [None == 0]
    is [False]. *)
Definition eq_int (x : option Z) (n : Z) : bool :=
  match x with
  | Some v => v =? n
  | None => false
  end.

Definition set_gradual_drawing (laser_num : Z) (mode : string)
  (manual_expansion_value : option Z) : M unit :=
  let channel := if laser_num =? 1 then 15 else 32 in
  match dict_get gradual_drawing_modes mode with
  | None => print (MsgInvalidMode "mode" mode (keys gradual_drawing_modes))
  | Some mode_range =>
      if String.eqb mode "forward_manual" || String.eqb mode "reverse_manual" then
        match manual_expansion_value with
        | None => print (MsgManualRequired mode)
        | Some manual_expansion_value =>
            if negb ((0 <=? manual_expansion_value)
                     && (manual_expansion_value
                         <=? (if String.eqb mode "forward_manual" then 127 else 63)))
            then print (MsgManualOutOfRange mode)
            else if laser_num =? 1 then
              x ← get_channel_value 14;
              if eq_int x 0 then print (MsgMustSetChannel 14)
              else set_channel channel manual_expansion_value
            else if laser_num =? 2 then
              x ← get_channel_value 31;
              if eq_int x 0 then print (MsgMustSetChannel 31)
              else set_channel channel manual_expansion_value
            else set_channel channel manual_expansion_value
        end
      else set_channel channel mode_range.1
  end.

(** *** Channel 16 or 17 *)

Definition set_distortion_degree (laser_num degree : Z) : M unit :=
  let channel := if laser_num =? 1 then 16 else 17 in
  if negb ((0 <=? degree) && (degree <=? 255)) then print MsgDegreeOutOfRange
  else set_channel channel degree.

(** *** Channel 18 *)

Definition set_second_lamp_pattern (pattern_value : Z) : M unit :=
  if negb ((0 <=? pattern_value) && (pattern_value <=? 255))
  then print MsgPatternOutOfRange
  else set_channel 18 pattern_value.

(** *** Channel 20 *)

Definition set_pattern_library_selection (mode : string) : M unit :=
  if String.eqb mode "default" then set_channel 20 0 else print MsgOnlyDefault.

(** *** Channel 26 *)

Definition horizontal_flip_modes : list (string * (Z * Z)) :=
  [ ("static", (0, 127));
    ("push_up_distortion", (128, 159));
    ("push_down_distortion", (160, 191));
    ("flip", (192, 223)) ].

Definition set_horizontal_flip (mode : string) (value : option Z) : M unit :=
  match dict_get horizontal_flip_modes mode with
  | None => print (MsgInvalidMode "mode" mode (keys horizontal_flip_modes))
  | Some mode_range =>
      match value with
      | None =>
          let value := mode_range.1 in
          print (MsgUsingDefault value mode mode_range.1 mode_range.2);;
          set_channel 26 value
      | Some value =>
          if negb (in_range mode_range value)
          then print (MsgValueOutOfRange value mode mode_range.1 mode_range.2)
          else set_channel 26 value
      end
  end.

(** *** Channel 27 *)

Definition vertical_flip_modes : list (string * (Z * Z)) :=
  [ ("static", (0, 127));
    ("right_push_distortion", (128, 159));
    ("left_push_distortion", (160, 191));
    ("flip", (192, 255)) ].

Definition set_vertical_flip (mode : string) (value : option Z) : M unit :=
  match dict_get vertical_flip_modes mode with
  | None => print (MsgInvalidMode "mode" mode (keys vertical_flip_modes))
  | Some mode_range =>
      match value with
      | None =>
          let value := mode_range.1 in
          print (MsgUsingDefault value mode mode_range.1 mode_range.2);;
          set_channel 27 value
      | Some value =>
          if negb (in_range mode_range value)
          then print (MsgValueOutOfRange value mode mode_range.1 mode_range.2)
          else set_channel 27 value
      end
  end.

(** *** Channel 29 *)

Definition color_change_modes : list (string * (Z * Z)) :=
  [ ("primary", (0, 7));
    ("white", (8, 15));
    ("red", (16, 23));
    ("yellow", (24, 31));
    ("green", (32, 39));
    ("indigo", (40, 47));
    ("blue", (48, 55));
    ("purple", (56, 63));
    ("rgb_cycle", (64, 95));
    ("yip_cycle", (96, 127));
    ("full_color_cycle", (128, 159));
    ("colorful_change", (160, 191));
    ("forward_movement", (192, 223));
    ("reverse_movement", (224, 255)) ].

Definition set_color_change (mode : string) (value : option Z) : M unit :=
  match dict_get color_change_modes mode with
  | None => print (MsgInvalidMode "mode" mode (keys color_change_modes))
  | Some mode_range =>
      match value with
      | None =>
          let value := mode_range.1 in
          print (MsgUsingDefault value mode mode_range.1 mode_range.2);;
          set_channel 29 value
      | Some value =>
          if negb (in_range mode_range value)
          then print (MsgValueOutOfRange value mode mode_range.1 mode_range.2)
          else set_channel 29 value
      end
  end.

(** *** Whole-array operations *)

Definition blackout : M unit := set_lamp_mode "off".

(** [{i: 0 for i in range(1, self.num_channels + 1)}] *)
Definition reset_all_channels : M unit :=
  s ← self;
  let all_channels_zero := map (λ i : Z, (i, 0)) (seqZ 1 (num_channels s)) in
  send_dmx_packet (Some all_channels_zero).

(** Returns the list object itself, not a copy. *)
Definition get_current_state : M (list Z) :=
  s ← self; mret (current_state s).

(** ** Every public method, as data *)

Inductive operation :=
| OpDisconnect
| OpSendDmxPacket (channel_values : option (list (Z * Z)))
| OpSetChannel (channel value : Z)
| OpGetChannelValue (channel : Z)
| OpSetLampMode (mode : string)
| OpSetPatternSize (laser_num : Z) (mode : string) (value : option Z)
| OpSelectGallery (gallery_num : Z)
| OpSelectPattern (laser_num pattern_index : Z)
| OpSetPatternZooming (laser_num : Z) (mode : string) (value : option Z)
| OpSetPatternRotation (laser_num : Z) (mode : string) (value : option Z)
| OpSetHorizontalMovement (laser_num : Z) (mode : string) (value : option Z)
| OpSetVerticalMovement (laser_num : Z) (mode : string) (value : option Z)
| OpSetHorizontalZooming (mode : string) (value : option Z)
| OpSetVerticalZooming (mode : string) (value : option Z)
| OpSetForcedColor (laser_num : Z) (mode : string) (value : option Z)
| OpSetStrobeFlash (mode : string) (value : option Z)
| OpSetNodeHighlighting (laser_num : Z) (mode : string) (value : option Z)
| OpSetNodeExpansion (laser_num expansion_value : Z) (delay_value : option Z)
| OpSetGradualDrawing (laser_num : Z) (mode : string) (value : option Z)
| OpSetDistortionDegree (laser_num degree : Z)
| OpSetSecondLampPattern (pattern_value : Z)
| OpSetPatternLibrarySelection (mode : string)
| OpSetHorizontalFlip (mode : string) (value : option Z)
| OpSetVerticalFlip (mode : string) (value : option Z)
| OpSetColorChange (mode : string) (value : option Z)
| OpBlackout
| OpResetAllChannels
| OpGetCurrentState.

(** Calling a method and dropping what it returns. *)
Definition run (o : operation) : M unit :=
  match o with
  | OpDisconnect => disconnect
  | OpSendDmxPacket cv => send_dmx_packet cv
  | OpSetChannel c v => set_channel c v
  | OpGetChannelValue c => get_channel_value c;; mret tt
  | OpSetLampMode m => set_lamp_mode m
  | OpSetPatternSize l m v => set_pattern_size l m v
  | OpSelectGallery g => select_gallery g
  | OpSelectPattern l p => select_pattern l p
  | OpSetPatternZooming l m v => set_pattern_zooming l m v
  | OpSetPatternRotation l m v => set_pattern_rotation l m v
  | OpSetHorizontalMovement l m v => set_horizontal_movement l m v
  | OpSetVerticalMovement l m v => set_vertical_movement l m v
  | OpSetHorizontalZooming m v => set_horizontal_zooming m v
  | OpSetVerticalZooming m v => set_vertical_zooming m v
  | OpSetForcedColor l m v => set_forced_color l m v
  | OpSetStrobeFlash m v => set_strobe_flash m v
  | OpSetNodeHighlighting l m v => set_node_highlighting l m v
  | OpSetNodeExpansion l e d => set_node_expansion l e d
  | OpSetGradualDrawing l m v => set_gradual_drawing l m v
  | OpSetDistortionDegree l d => set_distortion_degree l d
  | OpSetSecondLampPattern p => set_second_lamp_pattern p
  | OpSetPatternLibrarySelection m => set_pattern_library_selection m
  | OpSetHorizontalFlip m v => set_horizontal_flip m v
  | OpSetVerticalFlip m v => set_vertical_flip m v
  | OpSetColorChange m v => set_color_change m v
  | OpBlackout => blackout
  | OpResetAllChannels => reset_all_channels
  | OpGetCurrentState => get_current_state;; mret tt
  end.

(** The methods that funnel into [send_dmx_packet]: all but
    [disconnect] and the two getters. *)
Definition sends_packet (o : operation) : bool :=
  match o with
  | OpDisconnect | OpGetChannelValue _ | OpGetCurrentState => false
  | _ => true
  end.

(** ** The methods built on a table of sub-ranges *)

(** The twelve methods whose body is: look the mode up, default to the
    lower bound, or check the supplied value against the sub-range. *)
Inductive range_feature :=
| PatternSize | PatternZooming | PatternRotation | HorizontalMovement
| VerticalMovement | HorizontalZooming | VerticalZooming | StrobeFlash
| NodeHighlighting | HorizontalFlip | VerticalFlip | ColorChange.

Definition feature_modes (f : range_feature) : list (string * (Z * Z)) :=
  match f with
  | PatternSize => pattern_size_modes
  | PatternZooming => pattern_zooming_modes
  | PatternRotation => pattern_rotation_modes
  | HorizontalMovement => horizontal_movement_modes
  | VerticalMovement => vertical_movement_modes
  | HorizontalZooming => horizontal_zooming_modes
  | VerticalZooming => vertical_zooming_modes
  | StrobeFlash => strobe_flash_modes
  | NodeHighlighting => node_highlighting_modes
  | HorizontalFlip => horizontal_flip_modes
  | VerticalFlip => vertical_flip_modes
  | ColorChange => color_change_modes
  end.

(** The channel each method passes to [set_channel]. *)
Definition feature_channel (f : range_feature) (laser_num : Z) : Z :=
  match f with
  | PatternSize => if laser_num =? 1 then 2 else 19
  | PatternZooming => if laser_num =? 1 then 5 else 22
  | PatternRotation => if laser_num =? 1 then 6 else 23
  | HorizontalMovement => if laser_num =? 1 then 7 else 24
  | VerticalMovement => if laser_num =? 1 then 8 else 25
  | HorizontalZooming => 9
  | VerticalZooming => 10
  | StrobeFlash => 12
  | NodeHighlighting => if laser_num =? 1 then 13 else 30
  | HorizontalFlip => 26
  | VerticalFlip => 27
  | ColorChange => 29
  end.

Definition encode (f : range_feature) (laser_num : Z) (mode : string)
  (value : option Z) : M unit :=
  match f with
  | PatternSize => set_pattern_size laser_num mode value
  | PatternZooming => set_pattern_zooming laser_num mode value
  | PatternRotation => set_pattern_rotation laser_num mode value
  | HorizontalMovement => set_horizontal_movement laser_num mode value
  | VerticalMovement => set_vertical_movement laser_num mode value
  | HorizontalZooming => set_horizontal_zooming mode value
  | VerticalZooming => set_vertical_zooming mode value
  | StrobeFlash => set_strobe_flash mode value
  | NodeHighlighting => set_node_highlighting laser_num mode value
  | HorizontalFlip => set_horizontal_flip mode value
  | VerticalFlip => set_vertical_flip mode value
  | ColorChange => set_color_change mode value
  end.

(** ** The channel-array invariant *)

Definition is_channel_value (x : Z) : Prop := 0 <= x <= 255.

Definition channel_invariant (s : DmxController) : Prop :=
  length (current_state s) = Z.to_nat (num_channels s)
  ∧ Forall is_channel_value (current_state s).

(** What reaches the serial port for a packet: the write, or the
    diagnostic of the caught [SerialException] when the port is closed. *)
Definition wire (port : Serial) (packet : list Z) : event :=
  if is_open port then SerialWrite packet else Print MsgSendError.

Definition with_state (s : DmxController) (l : list Z) : DmxController :=
  {| num_channels := num_channels s; serial_port := serial_port s;
     current_state := l |}.

(** A controller for examples: [n] channels, all zero. *)
Definition connected (n : Z) : DmxController :=
  new_controller n (Some {| is_open := true |}).
Definition unconnected (n : Z) : DmxController := new_controller n None.

(** ** Vocabulary of the statements *)

Definition drawing_channel (laser_num : Z) : Z := if laser_num =? 1 then 15 else 32.

(** [127 if mode == "forward_manual" else 63] *)
Definition manual_ceiling (mode : string) : Z :=
  if String.eqb mode "forward_manual" then 127 else 63.

Definition preserves {A} (P : DmxController → Prop) (m : M A) : Prop :=
  ∀ s, P s → P (final (m s)).

(** The shape of the object: channel count and array length. *)
Definition has_shape (n : Z) (k : nat) (s : DmxController) : Prop :=
  num_channels s = n ∧ length (current_state s) = k.

(** No handle: nothing a method does reaches the array. *)
Definition detached (l : list Z) (s : DmxController) : Prop :=
  serial_port s = None ∧ current_state s = l.

(** A diagnostic of kind [k] was printed. *)
Definition reports {A} (k : ErrorKind) (r : result A) : Prop :=
  ∃ m, Print m ∈ output r ∧ error_kind m = Some k.

(** A connected 32-channel controller whose channel [c] holds [v]. *)
Definition holding (c v : Z) : DmxController :=
  with_state (connected 32) (<[Z.to_nat (c - 1) := v]> (current_state (connected 32))).

(** ** Vocabulary of the further results *)

(** The test of line 96 on one dictionary entry. *)
Definition valid_entry (n : Z) (item : Z * Z) : bool :=
  (1 <=? item.1) && (item.1 <=? n) && ((0 <=? item.2) && (item.2 <=? 255)).

(** What the loop of lines 95-101 leaves in the array, as a fold. *)
Fixpoint apply_entries (n : Z) (items : list (Z * Z)) (l : list Z) : list Z :=
  match items with
  | [] => l
  | item :: rest =>
      apply_entries n rest
        (if valid_entry n item then <[Z.to_nat (item.1 - 1) := item.2]> l else l)
  end.

(** The warnings the loop prints, in order. *)
Fixpoint skipped_entries (n : Z) (items : list (Z * Z)) : list event :=
  match items with
  | [] => []
  | item :: rest =>
      if valid_entry n item then skipped_entries n rest
      else Print (MsgInvalidChannelOrValue item.1 item.2) :: skipped_entries n rest
  end.

(** The packets among the events of a call. *)
Fixpoint packets_sent (out : list event) : list (list Z) :=
  match out with
  | [] => []
  | SerialWrite packet :: rest => packet :: packets_sent rest
  | _ :: rest => packets_sent rest
  end.

(** The word each table-driven method puts in its invalid-mode text. *)
Definition feature_label (f : range_feature) : string :=
  match f with
  | PatternSize => "size mode"
  | PatternZooming | HorizontalZooming | VerticalZooming => "zoom mode"
  | PatternRotation => "rotation mode"
  | HorizontalMovement | VerticalMovement => "movement mode"
  | StrobeFlash | NodeHighlighting | HorizontalFlip | VerticalFlip | ColorChange => "mode"
  end.

(** The entries of a table, in order, tile [lo, hi] without gap or overlap. *)
Fixpoint tiles (d : list (string * (Z * Z))) (lo hi : Z) : bool :=
  match d with
  | [] => hi + 1 =? lo
  | (_, (a, b)) :: rest => (a =? lo) && (a <=? b) && (b <=? hi) && tiles rest (b + 1) hi
  end.

(** The methods that choose channel and value themselves: all but the raw
    writes [send_dmx_packet], [set_channel] and the unchecked
    [select_pattern]. *)
Definition chooses_own_value (o : operation) : bool :=
  match o with
  | OpSendDmxPacket _ | OpSetChannel _ _ | OpSelectPattern _ _ => false
  | _ => true
  end.

(** The controller once its handle is gone. *)
Definition without_handle (s : DmxController) : DmxController :=
  {| num_channels := num_channels s; serial_port := None;
     current_state := current_state s |}.

(** The largest value any entry of the method's table admits. *)
Definition feature_top (f : range_feature) : Z :=
  match f with
  | NodeHighlighting | HorizontalFlip => 223
  | _ => 255
  end.

(** The method passes value [v] on under mode name [mode]. *)
Definition accepts (f : range_feature) (mode : string) (v : Z) : Prop :=
  ∃ lo hi, dict_get (feature_modes f) mode = Some (lo, hi) ∧ lo <= v <= hi.

(** The call returned instead of raising. *)
Definition returns_normally {A} (r : result A) : Prop := ∃ a, outcome r = inr a.

(** At most one packet was sent, and it is the frame of the array the
    call left behind. *)
Definition sends_current_frame {A} (r : result A) : Prop :=
  packets_sent (output r) = []
  ∨ packets_sent (output r) = [0 :: current_state (final r)].

(** A step that reads or prints: it leaves the controller alone, sends
    nothing and returns. *)
Definition quiet {A} (m : M A) : Prop :=
  ∀ s, channel_invariant s →
       final (m s) = s ∧ packets_sent (output (m s)) = [] ∧ returns_normally (m s).

(** What every method is shown to do on a controller that satisfies the
    invariant. *)
Definition well_behaved {A} (m : M A) : Prop :=
  ∀ s, channel_invariant s → returns_normally (m s) ∧ sends_current_frame (m s).

(** The range check of [send_dmx_packet] did not fire during the call. *)
Definition never_refused {A} (r : result A) : Prop :=
  ∀ c v, ¬ In (Print (MsgInvalidChannelOrValue c v)) (output r).

(** On the device's 32 channels (or more) the computation never trips the
    range check. *)
Definition tidy {A} (m : M A) : Prop :=
  ∀ s, channel_invariant s → 32 <= num_channels s → never_refused (m s).

(** A step that leaves the controller alone and does not trip the range
    check. *)
Definition calm {A} (m : M A) : Prop :=
  ∀ s, channel_invariant s → final (m s) = s ∧ never_refused (m s).







(** * Properties *)

Ltac run_monad :=
  repeat (cbv beta iota delta
            [mbind M_bind mret M_ret self emit print raise set_current_state
             set_serial_port final output outcome] in *;
          cbn [fst snd app] in *).

Example set_get_demo :
  (set_channel 3 7;; get_channel_value 3) (new_controller 4 (Some {| is_open := true |}))
  = ({| num_channels := 4; serial_port := Some {| is_open := true |};
        current_state := [0; 0; 7; 0] |},
     [SerialWrite [0; 0; 0; 7; 0]], inr (Some 7)).
Proof. reflexivity. Qed.

Lemma is_byte_spec x : is_byte x = true ↔ is_channel_value x.
Proof. unfold is_byte, is_channel_value. lia. Qed.

Lemma forallb_is_byte l : Forall is_channel_value l → forallb is_byte l = true.
Proof.
  induction 1 as [|x l Hx _ IH]; [reflexivity|].
  cbn. rewrite IH. apply is_byte_spec in Hx. rewrite Hx. reflexivity.
Qed.

Lemma build_packet_bytes l :
  Forall is_channel_value l → build_packet l = inr (0 :: l).
Proof.
  intros H. unfold build_packet, bytearray_extend.
  rewrite (forallb_is_byte _ H). reflexivity.
Qed.

Lemma py_index_nonneg len i :
  0 <= i < Z.of_nat len → py_index len i = Some (Z.to_nat i).
Proof.
  intros H. unfold py_index.
  replace (0 <=? i) with true by lia. replace (i <? Z.of_nat len) with true by lia.
  reflexivity.
Qed.

Lemma set_channel_disconnected s c v :
  serial_port s = None → set_channel c v s = (s, [Print MsgNotConnected], inr tt).
Proof.
  intros H. unfold set_channel, send_dmx_packet. run_monad. rewrite H. reflexivity.
Qed.

Lemma set_channel_valid s port c v :
  serial_port s = Some port → channel_invariant s →
  1 <= c <= num_channels s → 0 <= v <= 255 →
  set_channel c v s
  = (with_state s (<[Z.to_nat (c - 1) := v]> (current_state s)),
     [wire port (0 :: <[Z.to_nat (c - 1) := v]> (current_state s))], inr tt).
Proof.
  intros Hp [Hlen Hb] Hc Hv. unfold set_channel, send_dmx_packet. run_monad.
  rewrite Hp. cbn [update_channels]. run_monad.
  replace ((1 <=? c) && (c <=? num_channels s) && ((0 <=? v) && (v <=? 255)))
    with true by lia.
  unfold setitem. run_monad.
  rewrite py_index_nonneg by lia. cbn.
  rewrite build_packet_bytes.
  - unfold serial_write, wire, with_state. rewrite Hp. destruct (is_open port); reflexivity.
  - apply Forall_insert; [assumption|]. unfold is_channel_value. lia.
Qed.

Lemma set_channel_invalid s port c v :
  serial_port s = Some port → Forall is_channel_value (current_state s) →
  ¬ (1 <= c <= num_channels s ∧ 0 <= v <= 255) →
  set_channel c v s
  = (s, [Print (MsgInvalidChannelOrValue c v); wire port (0 :: current_state s)],
     inr tt).
Proof.
  intros Hp Hb Hbad. unfold set_channel, send_dmx_packet. run_monad.
  rewrite Hp. cbn [update_channels]. run_monad.
  replace ((1 <=? c) && (c <=? num_channels s) && ((0 <=? v) && (v <=? 255)))
    with false by lia.
  cbn. rewrite build_packet_bytes by assumption.
  unfold serial_write, wire. destruct s; destruct (is_open port); reflexivity.
Qed.

Lemma get_channel_value_final c s : final (get_channel_value c s) = s.
Proof.
  unfold get_channel_value, getitem. run_monad.
  destruct ((1 <=? c) && (c <=? num_channels s)); [|reflexivity].
  destruct (py_index _ _); [|reflexivity].
  destruct (current_state s !! _); reflexivity.
Qed.

Lemma get_channel_value_valid s c :
  length (current_state s) = Z.to_nat (num_channels s) →
  1 <= c <= num_channels s →
  get_channel_value c s = (s, [], inr (current_state s !! Z.to_nat (c - 1)))
  ∧ is_Some (current_state s !! Z.to_nat (c - 1)).
Proof.
  intros Hlen Hc.
  assert (Hlt : (Z.to_nat (c - 1) < length (current_state s))%nat) by lia.
  destruct (lookup_lt_is_Some_2 _ _ Hlt) as [x Hx].
  split; [|eauto].
  unfold get_channel_value, getitem. run_monad.
  replace ((1 <=? c) && (c <=? num_channels s)) with true by lia.
  rewrite py_index_nonneg by lia. rewrite Hx. reflexivity.
Qed.

(** ** Properties kept by every method *)

Section Preservation.
Context (P : DmxController → Prop).

Lemma preserves_ret {A} (a : A) : preserves P (mret a).
Proof. intros s H. exact H. Qed.

Lemma preserves_self : preserves P self.
Proof. intros s H. exact H. Qed.

Lemma preserves_emit e : preserves P (emit e).
Proof. intros s H. exact H. Qed.

Lemma preserves_print m : preserves P (print m).
Proof. intros s H. exact H. Qed.

Lemma preserves_raise {A} e : preserves P (raise (A := A) e).
Proof. intros s H. exact H. Qed.

Lemma preserves_bind {A B} (m : M A) (f : A → M B) :
  preserves P m → (∀ a, preserves P (f a)) → preserves P (m ≫= f).
Proof.
  intros Hm Hf s Hs. specialize (Hm s Hs).
  unfold mbind, M_bind, final in *.
  destruct (m s) as [[s1 out1] [e|a]]; cbn in *; [assumption|].
  specialize (Hf a s1 Hm). destruct (f a s1) as [[s2 out2] r]. exact Hf.
Qed.

Lemma preserves_get_channel_value c : preserves P (get_channel_value c).
Proof. intros s H. rewrite get_channel_value_final. exact H. Qed.

Lemma preserves_ge_int x n : preserves P (ge_int x n).
Proof. destruct x; intros s H; exact H. Qed.

(** Once [send_dmx_packet] and [disconnect] keep [P], so does every
    method: the others only print, read, and end in [set_channel]. *)
Hypothesis P_send : ∀ cv, preserves P (send_dmx_packet cv).
Hypothesis P_disconnect : preserves P disconnect.

Lemma preserves_set_channel c v : preserves P (set_channel c v).
Proof. apply P_send. Qed.

Ltac preserves_step :=
  lazymatch goal with
  | |- preserves _ (set_channel _ _) => apply preserves_set_channel
  | |- preserves _ (send_dmx_packet _) => apply P_send
  | |- preserves _ (get_channel_value _) => apply preserves_get_channel_value
  | |- preserves _ (ge_int _ _) => apply preserves_ge_int
  | |- preserves _ (print _) => apply preserves_print
  | |- preserves _ (mret _) => apply preserves_ret
  | |- preserves _ self => apply preserves_self
  | |- preserves _ (_ ≫= _) => apply preserves_bind; [|intros ?]
  | |- preserves _ (match ?x with _ => _ end) => destruct x
  end.

Lemma preserves_run o : preserves P (run o).
Proof.
  destruct o; cbn [run];
    try exact P_disconnect;
    unfold set_lamp_mode, set_pattern_size, select_gallery, select_pattern,
      set_pattern_zooming, set_pattern_rotation, set_horizontal_movement,
      set_vertical_movement, set_horizontal_zooming, set_vertical_zooming,
      set_forced_color, set_strobe_flash, set_node_highlighting,
      set_node_expansion, set_gradual_drawing, set_distortion_degree,
      set_second_lamp_pattern, set_pattern_library_selection,
      set_horizontal_flip, set_vertical_flip, set_color_change, blackout,
      set_lamp_mode, reset_all_channels, get_current_state;
    repeat preserves_step.
Qed.
End Preservation.

Lemma preserves_serial_write P port packet : preserves P (serial_write port packet).
Proof. unfold serial_write. destruct (is_open port); intros s H; exact H. Qed.

Lemma preserves_send_dmx_packet P :
  (∀ items, preserves P (update_channels items)) →
  ∀ cv, preserves P (send_dmx_packet cv).
Proof.
  intros Hupd cv. unfold send_dmx_packet.
  apply preserves_bind; [apply preserves_self|]. intros s0.
  destruct (serial_port s0) as [port|]; [|apply preserves_print].
  apply preserves_bind.
  - destruct cv as [[|item rest]|]; try apply preserves_ret. apply Hupd.
  - intros _. apply preserves_bind; [apply preserves_self|]. intros s1.
    destruct (build_packet _); [apply preserves_raise|apply preserves_serial_write].
Qed.

Lemma preserves_update_channels P :
  (∀ c v s, 1 <= c <= num_channels s → 0 <= v <= 255 → P s →
            P (final (setitem (c - 1) v s))) →
  ∀ items, preserves P (update_channels items).
Proof.
  intros Hset items. induction items as [|[c v] rest IH]; cbn [update_channels].
  - apply preserves_ret.
  - intros s Hs. run_monad.
    destruct ((1 <=? c) && (c <=? num_channels s) && ((0 <=? v) && (v <=? 255)))
      eqn:Hguard.
    + specialize (Hset c v s ltac:(lia) ltac:(lia) Hs). unfold final in Hset.
      destruct (setitem (c - 1) v s) as [[s1 out1] [e|[]]]; cbn in *; [assumption|].
      specialize (IH s1 Hset). unfold final in IH.
      destruct (update_channels rest s1) as [[s2 out2] r]. exact IH.
    + cbn. specialize (IH s Hs). unfold final in IH.
      destruct (update_channels rest s) as [[s2 out2] r]. exact IH.
Qed.

Lemma setitem_shape n k i v s : has_shape n k s → has_shape n k (final (setitem i v s)).
Proof.
  intros [Hn Hk]. unfold setitem. run_monad.
  destruct (py_index _ _); cbn; [|split; assumption].
  split; cbn; [assumption|]. rewrite length_insert. assumption.
Qed.

Lemma setitem_bytes i v s :
  0 <= v <= 255 → Forall is_channel_value (current_state s) →
  Forall is_channel_value (current_state (final (setitem i v s))).
Proof.
  intros Hv Hb. unfold setitem. run_monad.
  destruct (py_index _ _); cbn; [|assumption].
  apply Forall_insert; assumption.
Qed.

Lemma disconnect_current_state s :
  current_state (final (disconnect s)) = current_state s
  ∧ num_channels (final (disconnect s)) = num_channels s.
Proof. unfold disconnect. run_monad. destruct (serial_port s); split; reflexivity. Qed.

Lemma run_shape n k o : preserves (has_shape n k) (run o).
Proof.
  apply preserves_run.
  - apply preserves_send_dmx_packet, preserves_update_channels.
    intros c v s _ _. apply setitem_shape.
  - intros s [Hn Hk]. destruct (disconnect_current_state s) as [Hc Hm].
    split; congruence.
Qed.

Lemma run_bytes o : preserves (λ s, Forall is_channel_value (current_state s)) (run o).
Proof.
  apply preserves_run.
  - apply preserves_send_dmx_packet, preserves_update_channels.
    intros c v s _ Hv. apply setitem_bytes. exact Hv.
  - intros s H. destruct (disconnect_current_state s) as [Hc _]. rewrite Hc. exact H.
Qed.

Lemma send_dmx_packet_disconnected cv s :
  serial_port s = None → send_dmx_packet cv s = (s, [Print MsgNotConnected], inr tt).
Proof. intros H. unfold send_dmx_packet. run_monad. rewrite H. reflexivity. Qed.

Lemma run_detached l o : preserves (detached l) (run o).
Proof.
  apply preserves_run.
  - intros cv s [Hp Hl]. rewrite send_dmx_packet_disconnected by assumption.
    split; assumption.
  - intros s [Hp Hl]. unfold disconnect. run_monad. rewrite Hp. split; assumption.
Qed.

Lemma new_controller_invariant n handle : channel_invariant (new_controller n handle).
Proof.
  split; cbn.
  - apply length_replicate.
  - apply Forall_replicate. unfold is_channel_value. lia.
Qed.

(** ** Channel writes and reads *)

(** Helper shared by the round-trip results: on a controller that holds a
    handle, a valid write is visible to the next read. *)
Lemma set_then_get s port i v :
  serial_port s = Some port → channel_invariant s →
  1 <= i <= num_channels s → 0 <= v <= 255 →
  (set_channel i v;; get_channel_value i) s
  = (with_state s (<[Z.to_nat (i - 1) := v]> (current_state s)),
     [wire port (0 :: <[Z.to_nat (i - 1) := v]> (current_state s))],
     inr (Some v)).
Proof.
  intros Hp Hinv Hi Hv.
  pose proof (set_channel_valid s port i v Hp Hinv Hi Hv) as Hset.
  destruct Hinv as [Hlen Hb].
  set (s' := with_state s (<[Z.to_nat (i - 1) := v]> (current_state s))) in *.
  assert (Hlen' : length (current_state s') = Z.to_nat (num_channels s')).
  { cbn. rewrite length_insert. exact Hlen. }
  destruct (get_channel_value_valid s' i Hlen' Hi) as [Hget _].
  unfold mbind, M_bind. rewrite Hset, Hget. cbn.
  rewrite list_lookup_insert_eq by lia. reflexivity.
Qed.

(** C1, as amended.  On a controller that holds a serial handle, for every
    channel [i] in [1, N] and value [v] in [0, 255], [set_channel i v]
    followed by [get_channel_value i] returns [v]. *)
Theorem set_channel_get_channel_roundtrip s port i v :
  serial_port s = Some port → channel_invariant s →
  1 <= i <= num_channels s → 0 <= v <= 255 →
  outcome ((set_channel i v;; get_channel_value i) s) = inr (Some v).
Proof.
  intros Hp Hinv Hi Hv. rewrite (set_then_get s port i v) by assumption. reflexivity.
Qed.

Lemma set_channel_get_channel_roundtrip_witness :
  outcome ((set_channel 3 7;; get_channel_value 3) (connected 32)) = inr (Some 7).
Proof.
  apply (set_channel_get_channel_roundtrip (connected 32) {| is_open := true |} 3 7).
  - reflexivity.
  - apply new_controller_invariant.
  - cbn. lia.
  - lia.
Defined.

(** C1 fails as stated: without a serial handle [send_dmx_packet] returns
    before touching the array, so the read gives the old value.  Here a
    fresh 32-channel controller with no handle, channel 1, value 5: the
    read returns 0. *)
Lemma roundtrip_fails_without_handle :
  ¬ (∀ s i v, channel_invariant s → 1 <= i <= num_channels s → 0 <= v <= 255 →
       outcome ((set_channel i v;; get_channel_value i) s) = inr (Some v)).
Proof.
  intros H.
  specialize (H (unconnected 32) 1 5 (new_controller_invariant _ _)).
  cbn in H. specialize (H ltac:(lia) ltac:(lia)).
  vm_compute in H. discriminate H.
Qed.

(** C4, as amended.  If [c] is outside [1, N] or [v] outside [0, 255],
    [set_channel c v] leaves the controller, and so the channel array,
    as it was.  With a serial handle it prints the invalid-channel
    warning (the [OutOfRange] diagnostic) and then sends the unchanged
    array; without a handle it prints the not-connected error instead. *)
Theorem set_channel_out_of_range s c v :
  channel_invariant s →
  ¬ (1 <= c <= num_channels s ∧ 0 <= v <= 255) →
  final (set_channel c v s) = s
  ∧ match serial_port s with
    | Some port =>
        output (set_channel c v s)
        = [Print (MsgInvalidChannelOrValue c v); wire port (0 :: current_state s)]
        ∧ error_kind (MsgInvalidChannelOrValue c v) = Some OutOfRange
    | None => output (set_channel c v s) = [Print MsgNotConnected]
    end.
Proof.
  intros [_ Hb] Hbad. destruct (serial_port s) as [port|] eqn:Hp.
  - rewrite (set_channel_invalid s port c v Hp Hb Hbad). auto.
  - rewrite (set_channel_disconnected s c v Hp). auto.
Qed.

Lemma set_channel_out_of_range_witness :
  final (set_channel 33 10 (connected 32)) = connected 32
  ∧ output (set_channel 33 10 (connected 32))
    = [Print (MsgInvalidChannelOrValue 33 10);
       wire {| is_open := true |} (0 :: current_state (connected 32))]
  ∧ error_kind (MsgInvalidChannelOrValue 33 10) = Some OutOfRange.
Proof.
  apply (set_channel_out_of_range (connected 32) 33 10).
  - apply new_controller_invariant.
  - cbn. lia.
Defined.

(** C4 fails as stated: without a serial handle the only diagnostic is
    the not-connected error, whatever the arguments.  Here channel 0,
    value 5 on a fresh 32-channel controller with no handle. *)
Lemma out_of_range_not_reported_without_handle :
  ¬ (∀ s c v, channel_invariant s →
       ¬ (1 <= c <= num_channels s ∧ 0 <= v <= 255) →
       reports OutOfRange (set_channel c v s)
       ∧ current_state (final (set_channel c v s)) = current_state s).
Proof.
  intros H.
  destruct (H (unconnected 32) 0 5 (new_controller_invariant _ _)) as [[m [Hin Hk]] _].
  - cbn. lia.
  - vm_compute in Hin. apply list_elem_of_singleton in Hin.
    injection Hin as ->. discriminate Hk.
Qed.

(** ** Packet framing *)

(** C7.  For every channel array (values in [0, 255]) the packet is the
    byte 0 followed by the channel values in order, one longer than the
    array, and that is what [send_dmx_packet] hands to the serial port;
    on the all-zero array of 32 channels it is 33 zero bytes. *)
Theorem packet_is_start_code_then_channels (state : list Z) :
  Forall is_channel_value state →
  build_packet state = inr (0 :: state)
  ∧ length (0 :: state) = S (length state)
  ∧ (∀ s port, current_state s = state → serial_port s = Some port →
       send_dmx_packet None s = (s, [wire port (0 :: state)], inr tt))
  ∧ build_packet (replicate 32 0) = inr (replicate 33 0).
Proof.
  intros Hb. split; [apply build_packet_bytes, Hb|].
  split; [reflexivity|]. split; [|reflexivity].
  intros s port Hs Hp. unfold send_dmx_packet. run_monad. rewrite Hp. cbn.
  rewrite Hs, (build_packet_bytes _ Hb).
  unfold serial_write, wire. destruct (is_open port); reflexivity.
Qed.

Lemma packet_is_start_code_then_channels_witness :
  build_packet [7; 0; 255] = inr [0; 7; 0; 255].
Proof.
  apply (packet_is_start_code_then_channels [7; 0; 255]).
  repeat constructor; unfold is_channel_value; lia.
Defined.

(** ** The invariant *)

(** C9.  Every method keeps the channel-array invariant: the array keeps
    its length, [num_channels] keeps its value, and every element stays
    in [0, 255].  The constructor establishes the invariant. *)
Theorem operations_keep_channel_invariant (o : operation) (s : DmxController) :
  channel_invariant s →
  channel_invariant (final (run o s))
  ∧ num_channels (final (run o s)) = num_channels s
  ∧ length (current_state (final (run o s))) = length (current_state s).
Proof.
  intros [Hlen Hb].
  destruct (run_shape (num_channels s) (length (current_state s)) o s) as [Hn Hk];
    [split; reflexivity|].
  pose proof (run_bytes o s Hb) as Hb'.
  repeat split; try assumption. rewrite Hk, Hn. exact Hlen.
Qed.

Lemma operations_keep_channel_invariant_witness :
  channel_invariant (final (run (OpSetPatternZooming 2 "zoom_in" (Some 145)) (connected 32)))
  ∧ num_channels (final (run (OpSetPatternZooming 2 "zoom_in" (Some 145)) (connected 32)))
    = num_channels (connected 32)
  ∧ length (current_state
              (final (run (OpSetPatternZooming 2 "zoom_in" (Some 145)) (connected 32))))
    = length (current_state (connected 32)).
Proof.
  apply (operations_keep_channel_invariant
           (OpSetPatternZooming 2 "zoom_in" (Some 145)) (connected 32)).
  apply new_controller_invariant.
Defined.

(** ** Without a serial handle *)

(** C10.  When [serial_port] is [None], [set_channel] only prints the
    not-connected error and returns, and no method changes the channel
    array (in particular none of those that go through
    [send_dmx_packet]).  So a read after a write returns what the channel
    held before, and for every channel there is a value for which the
    round trip fails. *)
Theorem without_handle_nothing_is_written (s : DmxController) :
  serial_port s = None →
  (∀ c v, set_channel c v s = (s, [Print MsgNotConnected], inr tt))
  ∧ (∀ cv, send_dmx_packet cv s = (s, [Print MsgNotConnected], inr tt))
  ∧ (∀ o, sends_packet o = true → final (run o s) = s)
  ∧ (∀ o, current_state (final (run o s)) = current_state s)
  ∧ (∀ i v, outcome ((set_channel i v;; get_channel_value i) s)
            = outcome (get_channel_value i s))
  ∧ (channel_invariant s → ∀ i, 1 <= i <= num_channels s →
     ∃ v, 0 <= v <= 255
          ∧ outcome ((set_channel i v;; get_channel_value i) s) ≠ inr (Some v)).
Proof.
  intros Hp.
  assert (Hrt : ∀ i v, outcome ((set_channel i v;; get_channel_value i) s)
                       = outcome (get_channel_value i s)).
  { intros i v. unfold mbind at 1, M_bind at 1.
    rewrite (set_channel_disconnected s i v Hp).
    destruct (get_channel_value i s) as [[s2 out2] r]. reflexivity. }
  split; [intros c v; apply set_channel_disconnected, Hp|].
  split; [intros cv; apply send_dmx_packet_disconnected, Hp|].
  split.
  { intros o Ho.
    destruct (run_detached (current_state s) o s) as [Hp' Hl]; [split; auto|].
    destruct (run_shape (num_channels s) (length (current_state s)) o s) as [Hn _];
      [split; reflexivity|].
    destruct (final (run o s)) as [n' p' l'], s as [n p l]. cbn in *. congruence. }
  split.
  { intros o. destruct (run_detached (current_state s) o s) as [_ Hl]; [split; auto|].
    exact Hl. }
  split; [exact Hrt|].
  intros [Hlen _] i Hi.
  destruct (get_channel_value_valid s i Hlen Hi) as [Hget [x Hx]].
  exists (if x =? 0 then 1 else 0).
  split; [destruct (x =? 0); lia|].
  rewrite Hrt, Hget, Hx. cbn. intros Heq. injection Heq as Heq.
  destruct (x =? 0) eqn:E; lia.
Qed.

Lemma without_handle_nothing_is_written_witness :
  set_channel 1 5 (unconnected 32) = (unconnected 32, [Print MsgNotConnected], inr tt).
Proof.
  apply (without_handle_nothing_is_written (unconnected 32)). reflexivity.
Defined.

(** ** Mode encoding *)

Lemma bind_pure {A B} (m : M A) (f : A → M B) s a :
  m s = (s, [], inr a) → (m ≫= f) s = f a s.
Proof.
  intros H. unfold mbind, M_bind. rewrite H.
  destruct (f a s) as [[s2 out2] r]. reflexivity.
Qed.

Lemma in_range_spec lo hi v : in_range (lo, hi) v = true ↔ lo <= v <= hi.
Proof. unfold in_range. cbn. lia. Qed.

Lemma in_range_true lo hi v : lo <= v <= hi → in_range (lo, hi) v = true.
Proof. apply in_range_spec. Qed.

Lemma in_range_false lo hi v : ¬ lo <= v <= hi → in_range (lo, hi) v = false.
Proof.
  intros H. destruct (in_range (lo, hi) v) eqn:E; [|reflexivity].
  apply in_range_spec in E. contradiction.
Qed.

Ltac unfold_features :=
  unfold set_pattern_size, set_pattern_zooming, set_pattern_rotation,
    set_horizontal_movement, set_vertical_movement, set_horizontal_zooming,
    set_vertical_zooming, set_strobe_flash, set_node_highlighting,
    set_horizontal_flip, set_vertical_flip, set_color_change.

Ltac feature_cases f Hl Hm :=
  destruct f; cbn [encode feature_modes feature_channel] in *; unfold_features;
  rewrite Hm; destruct Hl as [-> | ->]; cbn [Z.eqb Pos.eqb orb negb fst snd].

Lemma encode_default f laser mode lo hi s :
  laser = 1 ∨ laser = 2 → dict_get (feature_modes f) mode = Some (lo, hi) →
  encode f laser mode None s
  = (print (MsgUsingDefault lo mode lo hi);; set_channel (feature_channel f laser) lo) s.
Proof. intros Hl Hm. feature_cases f Hl Hm; reflexivity. Qed.

Lemma encode_accepts f laser mode lo hi v s :
  laser = 1 ∨ laser = 2 → dict_get (feature_modes f) mode = Some (lo, hi) →
  lo <= v <= hi →
  encode f laser mode (Some v) s = set_channel (feature_channel f laser) v s.
Proof.
  intros Hl Hm Hv. feature_cases f Hl Hm;
    rewrite (in_range_true lo hi v Hv); reflexivity.
Qed.

Lemma encode_rejects f laser mode lo hi v s :
  laser = 1 ∨ laser = 2 → dict_get (feature_modes f) mode = Some (lo, hi) →
  ¬ lo <= v <= hi →
  encode f laser mode (Some v) s = (s, [Print (MsgValueOutOfRange v mode lo hi)], inr tt).
Proof.
  intros Hl Hm Hv. feature_cases f Hl Hm;
    rewrite (in_range_false lo hi v Hv); reflexivity.
Qed.

(** [set_channel] never ends the way a rejected value does: it prints the
    not-connected error, or reaches the serial port, or raises. *)
Lemma set_channel_not_rejection c v s s' v' mode lo hi :
  set_channel c v s ≠ (s', [Print (MsgValueOutOfRange v' mode lo hi)], inr tt).
Proof.
  unfold set_channel, send_dmx_packet. run_monad.
  destruct (serial_port s) as [port|]; [|discriminate].
  cbn [update_channels]. run_monad.
  destruct ((1 <=? c) && (c <=? num_channels s) && ((0 <=? v) && (v <=? 255))).
  - unfold setitem. run_monad. destruct (py_index _ _); cbn; [|discriminate].
    destruct (build_packet _); cbn; [discriminate|].
    unfold serial_write. destruct (is_open port); discriminate.
  - cbn. destruct (build_packet _); cbn; [discriminate|].
    unfold serial_write. destruct (is_open port); discriminate.
Qed.











(** ** Node highlighting *)

Lemma node_highlighting_upper_bound mode lo hi :
  dict_get node_highlighting_modes mode = Some (lo, hi) → hi <= 223.
Proof.
  unfold node_highlighting_modes. cbn [dict_get]. intros H.
  repeat (destruct (String.eqb mode _); [injection H as <- <-; lia|]).
  discriminate H.
Qed.

(** C8.  ["scanning_line"] is the third entry of the node-highlighting
    table and its sub-range is 128 to 223: a value is passed on to
    channel 13 (laser 1) or 30 (laser 2) exactly when it lies in that
    range, so 160 to 223 are accepted although they lie above 159.  No
    entry of the table reaches above 223, so a value from 224 to 255 is
    rejected under every mode name. *)
Theorem scanning_line_is_128_to_223 (v : Z) (s : DmxController) :
  nth_error node_highlighting_modes 2 = Some ("scanning_line", (128, 223))
  ∧ (set_node_highlighting 1 "scanning_line" (Some v) s = set_channel 13 v s
     ↔ 128 <= v <= 223)
  ∧ (set_node_highlighting 2 "scanning_line" (Some v) s = set_channel 30 v s
     ↔ 128 <= v <= 223)
  ∧ (∀ laser, laser = 1 ∨ laser = 2 → ¬ 128 <= v <= 223 →
       set_node_highlighting laser "scanning_line" (Some v) s
       = (s, [Print (MsgValueOutOfRange v "scanning_line" 128 223)], inr tt))
  ∧ (∀ laser mode, laser = 1 ∨ laser = 2 → 224 <= v <= 255 →
       ∃ m, set_node_highlighting laser mode (Some v) s = (s, [Print m], inr tt)
            ∧ (error_kind m = Some ValueOutOfRange ∨ error_kind m = Some UnknownMode)).
Proof.
  assert (Hiff : ∀ laser, laser = 1 ∨ laser = 2 →
            (set_node_highlighting laser "scanning_line" (Some v) s
             = set_channel (feature_channel NodeHighlighting laser) v s
             ↔ 128 <= v <= 223)).
  { intros laser Hl. split.
    - intros Heq. destruct (decide (128 <= v <= 223)) as [Hv|Hv]; [exact Hv|].
      pose proof (encode_rejects NodeHighlighting laser "scanning_line" 128 223 v s
                    Hl eq_refl Hv) as Hrej.
      cbn [encode] in Hrej. rewrite Hrej in Heq.
      symmetry in Heq. apply set_channel_not_rejection in Heq. contradiction.
    - apply (encode_accepts NodeHighlighting laser "scanning_line" 128 223 v s Hl eq_refl). }
  split; [reflexivity|].
  split; [apply (Hiff 1); left; reflexivity|].
  split; [apply (Hiff 2); right; reflexivity|].
  split.
  - intros laser Hl Hv.
    apply (encode_rejects NodeHighlighting laser "scanning_line" 128 223 v s Hl eq_refl Hv).
  - intros laser mode Hl Hv.
    destruct (dict_get node_highlighting_modes mode) as [[lo hi]|] eqn:Hm.
    + pose proof (node_highlighting_upper_bound mode lo hi Hm) as Hhi.
      exists (MsgValueOutOfRange v mode lo hi). split; [|left; reflexivity].
      apply (encode_rejects NodeHighlighting laser mode lo hi v s Hl Hm). lia.
    + exists (MsgInvalidMode "mode" mode (keys node_highlighting_modes)).
      split; [|right; reflexivity].
      unfold set_node_highlighting. rewrite Hm. reflexivity.
Qed.

Lemma scanning_line_is_128_to_223_witness :
  set_node_highlighting 1 "scanning_line" (Some 200) (connected 32)
  = set_channel 13 200 (connected 32).
Proof.
  apply (scanning_line_is_128_to_223 200 (connected 32)). lia.
Defined.

(** ** Node expansion and gradual drawing *)



Lemma holding_invariant c v : 0 <= v <= 255 → channel_invariant (holding c v).
Proof.
  intros Hv. destruct (new_controller_invariant 32 (Some {| is_open := true |}))
    as [Hlen Hb].
  split; cbn.
  - rewrite length_insert. reflexivity.
  - apply Forall_insert; [exact Hb|exact Hv].
Qed.





Example node_expansion_spec_example :
  get_channel_value 15 (holding 15 200) = (holding 15 200, [], inr (Some 200))
  ∧ set_node_expansion 1 50 None (holding 15 200)
    = (holding 15 200, [Print MsgDelayRequired], inr tt)
  ∧ current_state (final (set_node_expansion 1 50 (Some 10) (holding 15 200))) !! 13%nat
    = Some 10.
Proof. repeat split. Qed.

Example gradual_drawing_spec_example :
  set_gradual_drawing 1 "forward_manual" (Some 5) (connected 32)
  = (connected 32, [Print (MsgMustSetChannel 14)], inr tt)
  ∧ set_gradual_drawing 1 "forward_manual" None (connected 32)
    = (connected 32, [Print (MsgManualRequired "forward_manual")], inr tt)
  ∧ current_state (final (set_gradual_drawing 1 "forward_manual" (Some 5) (holding 14 9)))
      !! 14%nat = Some 5.
Proof. repeat split. Qed.

(** The automatic sub-modes of gradual drawing take no value and use the
    lower bound of their sub-range; the manual ones are the only table
    entries for which a value is demanded. *)
Lemma gradual_drawing_automatic_modes laser mode lo hi value s :
  dict_get gradual_drawing_modes mode = Some (lo, hi) →
  mode ≠ "forward_manual" → mode ≠ "reverse_manual" →
  set_gradual_drawing laser mode value s = set_channel (drawing_channel laser) lo s.
Proof.
  intros Hm Hf Hr. unfold set_gradual_drawing. rewrite Hm.
  destruct (String.eqb_spec mode "forward_manual") as [?|_]; [contradiction|].
  destruct (String.eqb_spec mode "reverse_manual") as [?|_]; [contradiction|].
  reflexivity.
Qed.

(** * Further properties of the controller *)

(** ** Sequencing *)

Lemma bind_ok {A B} (m : M A) (f : A → M B) s s1 out a :
  m s = (s1, out, inr a) →
  (m ≫= f) s = (final (f a s1), out ++ output (f a s1), outcome (f a s1)).
Proof.
  intros H. unfold mbind, M_bind, final, output, outcome. rewrite H.
  destruct (f a s1) as [[s2 out2] r]. reflexivity.
Qed.

Lemma with_state_id s : with_state s (current_state s) = s.
Proof. destruct s. reflexivity. Qed.

(** ** [send_dmx_packet] with a whole dictionary *)

Lemma length_apply_entries n items l : length (apply_entries n items l) = length l.
Proof.
  revert l. induction items as [|item rest IH]; intros l; cbn [apply_entries];
    [reflexivity|].
  rewrite IH. destruct (valid_entry n item); [apply length_insert|reflexivity].
Qed.

Lemma update_channels_fold items s :
  length (current_state s) = Z.to_nat (num_channels s) →
  update_channels items s
  = (with_state s (apply_entries (num_channels s) items (current_state s)),
     skipped_entries (num_channels s) items, inr tt).
Proof.
  revert s. induction items as [|[c v] rest IH]; intros s Hlen;
    cbn [update_channels apply_entries skipped_entries].
  - rewrite with_state_id. reflexivity.
  - unfold valid_entry. cbn [fst snd]. run_monad.
    destruct ((1 <=? c) && (c <=? num_channels s) && ((0 <=? v) && (v <=? 255)))
      eqn:Hguard.
    + unfold setitem. run_monad. rewrite py_index_nonneg by lia. cbn.
      rewrite IH by (cbn; rewrite length_insert; exact Hlen). reflexivity.
    + cbn. rewrite IH by exact Hlen. reflexivity.
Qed.

Lemma Forall_apply_entries n items l :
  Forall is_channel_value l → Forall is_channel_value (apply_entries n items l).
Proof.
  revert l. induction items as [|[c v] rest IH]; intros l Hl; cbn [apply_entries];
    [exact Hl|].
  apply IH. destruct (valid_entry n (c, v)) eqn:E; [|exact Hl].
  apply Forall_insert; [exact Hl|].
  cbv [valid_entry fst snd] in E. unfold is_channel_value. cbn [snd]. lia.
Qed.

(** Helper: the whole result of [send_dmx_packet] on a controller that
    holds a handle. *)
Lemma send_dmx_packet_fold items s port :
  serial_port s = Some port → channel_invariant s →
  send_dmx_packet (Some items) s
  = (with_state s (apply_entries (num_channels s) items (current_state s)),
     skipped_entries (num_channels s) items
     ++ [wire port (0 :: apply_entries (num_channels s) items (current_state s))],
     inr tt).
Proof.
  intros Hp [Hlen Hb].
  pose proof (update_channels_fold items s Hlen) as Hupd.
  unfold send_dmx_packet. run_monad. rewrite Hp.
  destruct items as [|item rest].
  - cbn [apply_entries skipped_entries app]. rewrite build_packet_bytes by exact Hb.
    rewrite with_state_id.
    unfold serial_write, wire. destruct (is_open port); reflexivity.
  - rewrite Hupd. cbn -[apply_entries skipped_entries build_packet].
    rewrite build_packet_bytes by (apply Forall_apply_entries, Hb).
    unfold serial_write, wire. destruct (is_open port); reflexivity.
Qed.

(** A dictionary is applied entry by entry: the valid entries are written
    in order (a later one overwriting an earlier one), each invalid entry
    is skipped with its own warning without stopping the loop, and one
    packet with the resulting array follows the warnings. *)
Theorem send_dmx_packet_applies_valid_entries items s port :
  serial_port s = Some port → channel_invariant s →
  send_dmx_packet (Some items) s
  = (with_state s (apply_entries (num_channels s) items (current_state s)),
     skipped_entries (num_channels s) items
     ++ [wire port (0 :: apply_entries (num_channels s) items (current_state s))],
     inr tt)
  ∧ length (apply_entries (num_channels s) items (current_state s))
    = length (current_state s).
Proof.
  intros Hp Hinv. split; [apply send_dmx_packet_fold; assumption|].
  apply length_apply_entries.
Qed.

Lemma send_dmx_packet_applies_valid_entries_witness :
  send_dmx_packet (Some [(2, 9); (40, 1); (2, 300); (4, 8)]) (connected 4)
  = (with_state (connected 4) [0; 9; 0; 8],
     [Print (MsgInvalidChannelOrValue 40 1); Print (MsgInvalidChannelOrValue 2 300);
      SerialWrite [0; 0; 9; 0; 8]], inr tt).
Proof.
  apply (send_dmx_packet_applies_valid_entries
           [(2, 9); (40, 1); (2, 300); (4, 8)] (connected 4) {| is_open := true |}).
  - reflexivity.
  - apply new_controller_invariant.
Defined.

(** ** [reset_all_channels] *)

Lemma apply_zero_entries n (l : list Z) (m a : nat) :
  (a + m)%nat = length l → Z.of_nat (length l) <= n →
  apply_entries n (map (λ i : Z, (i, 0)) (seqZ (Z.of_nat a + 1) (Z.of_nat m))) l
  = take a l ++ replicate m 0.
Proof.
  revert a l. induction m as [|m IH]; intros a l Hlen Hn.
  - rewrite seqZ_nil by lia. cbn [map apply_entries replicate].
    rewrite take_ge by lia. symmetry. apply app_nil_r.
  - rewrite seqZ_cons by lia. cbn [map apply_entries].
    replace (valid_entry n (Z.of_nat a + 1, 0)) with true
      by (cbv [valid_entry fst snd]; lia).
    cbn [fst snd].
    replace (Z.succ (Z.of_nat a + 1)) with (Z.of_nat (S a) + 1) by lia.
    replace (Z.pred (Z.of_nat (S m))) with (Z.of_nat m) by lia.
    replace (Z.to_nat (Z.of_nat a + 1 - 1)) with a by lia.
    rewrite IH by (rewrite ?length_insert; lia).
    rewrite (take_S_r _ a 0) by (apply list_lookup_insert_eq; lia).
    rewrite take_insert_ge by lia.
    rewrite <- app_assoc. reflexivity.
Qed.

Lemma reset_all_channels_result s port :
  serial_port s = Some port → channel_invariant s →
  reset_all_channels s
  = (with_state s (replicate (Z.to_nat (num_channels s)) 0),
     [wire port (replicate (S (Z.to_nat (num_channels s))) 0)], inr tt).
Proof.
  intros Hp Hinv. pose proof Hinv as [Hlen Hb].
  unfold reset_all_channels. rewrite (bind_pure self _ s s eq_refl).
  rewrite (send_dmx_packet_fold _ s port Hp Hinv).
  assert (Hzero : apply_entries (num_channels s)
                    (map (λ i : Z, (i, 0)) (seqZ 1 (num_channels s))) (current_state s)
                  = replicate (Z.to_nat (num_channels s)) 0).
  { destruct (Z_le_gt_dec (num_channels s) 0) as [Hneg|Hpos].
    - rewrite seqZ_nil by lia. cbn [map apply_entries].
      replace (Z.to_nat (num_channels s)) with 0%nat in * by lia.
      destruct (current_state s); [reflexivity|discriminate Hlen].
    - pose proof (apply_zero_entries (num_channels s) (current_state s)
                    (Z.to_nat (num_channels s)) 0) as H.
      rewrite Z2Nat.id in H by lia. cbn [Z.of_nat Z.add take app] in H.
      apply H; lia. }
  rewrite Hzero.
  assert (Hnone : skipped_entries (num_channels s)
                    (map (λ i : Z, (i, 0)) (seqZ 1 (num_channels s))) = []).
  { assert (Hall : ∀ k (lst : list Z), Forall (λ i, 1 <= i <= k) lst →
                     skipped_entries k (map (λ i : Z, (i, 0)) lst) = []).
    { intros k lst. induction 1 as [|i lst Hi _ IH]; [reflexivity|].
      cbn [map skipped_entries].
      replace (valid_entry k (i, 0)) with true by (cbv [valid_entry fst snd]; lia).
      exact IH. }
    apply Hall, Forall_seqZ. intros i Hi. lia. }
  rewrite Hnone. reflexivity.
Qed.

(** On a controller that holds a handle, [reset_all_channels] leaves every
    channel at 0 and keeps the number of channels.  When the handle's
    port is open it prints nothing and sends exactly one packet, of
    [N + 1] zero bytes; when the port is not open the array is zeroed all
    the same, no packet is sent and the send error is the only output. *)
Theorem reset_all_channels_zeroes_every_channel s port :
  serial_port s = Some port → channel_invariant s →
  final (reset_all_channels s) = with_state s (replicate (Z.to_nat (num_channels s)) 0)
  ∧ outcome (reset_all_channels s) = inr tt
  ∧ (is_open port = true →
     output (reset_all_channels s)
     = [SerialWrite (replicate (S (Z.to_nat (num_channels s))) 0)]
     ∧ packets_sent (output (reset_all_channels s))
       = [replicate (S (Z.to_nat (num_channels s))) 0])
  ∧ (is_open port = false →
     output (reset_all_channels s) = [Print MsgSendError]
     ∧ packets_sent (output (reset_all_channels s)) = [])
  ∧ reset_all_channels s
    = (with_state s (replicate (Z.to_nat (num_channels s)) 0),
       [wire port (replicate (S (Z.to_nat (num_channels s))) 0)], inr tt).
Proof.
  intros Hp Hinv. rewrite (reset_all_channels_result s port Hp Hinv).
  unfold wire. cbn [final output outcome fst snd].
  split; [reflexivity|]. split; [reflexivity|].
  split; [intros ->; split; reflexivity|].
  split; [intros ->; split; reflexivity|]. reflexivity.
Qed.

Lemma reset_all_channels_zeroes_every_channel_witness :
  final (reset_all_channels (holding 15 200))
  = with_state (holding 15 200) (replicate 32 0)
  ∧ output (reset_all_channels (holding 15 200)) = [SerialWrite (replicate 33 0)].
Proof.
  destruct (reset_all_channels_zeroes_every_channel (holding 15 200)
              {| is_open := true |}) as (Hfin & _ & Hopen & _).
  - reflexivity.
  - apply holding_invariant. lia.
  - split; [exact Hfin|]. apply Hopen. reflexivity.
Defined.

(** ** What a channel write leaves alone *)

Lemma outcome_get_channel_value c s s' :
  num_channels s' = num_channels s →
  length (current_state s) = Z.to_nat (num_channels s) →
  length (current_state s') = Z.to_nat (num_channels s') →
  (1 <= c <= num_channels s →
   current_state s' !! Z.to_nat (c - 1) = current_state s !! Z.to_nat (c - 1)) →
  outcome (get_channel_value c s') = outcome (get_channel_value c s).
Proof.
  intros Hn Hlen Hlen' Hlook.
  destruct (decide (1 <= c <= num_channels s)) as [Hc|Hc].
  - destruct (get_channel_value_valid s c Hlen Hc) as [-> _].
    destruct (get_channel_value_valid s' c Hlen' ltac:(lia)) as [-> _].
    cbn. rewrite (Hlook Hc). reflexivity.
  - unfold get_channel_value. run_monad. rewrite Hn.
    replace ((1 <=? c) && (c <=? num_channels s)) with false by lia. reflexivity.
Qed.

Lemma other_channels_unchanged s c v j :
  channel_invariant s → j ≠ c →
  outcome ((set_channel c v;; get_channel_value j) s) = outcome (get_channel_value j s).
Proof.
  intros Hinv Hj. pose proof Hinv as [Hlen Hb].
  destruct (serial_port s) as [port|] eqn:Hp.
  - destruct (decide (1 <= c <= num_channels s ∧ 0 <= v <= 255)) as [[Hc Hv]|Hbad].
    + rewrite (bind_ok _ _ s _ _ tt (set_channel_valid s port c v Hp Hinv Hc Hv)).
      cbn [outcome snd]. apply outcome_get_channel_value; cbn.
      * reflexivity.
      * exact Hlen.
      * rewrite length_insert. exact Hlen.
      * intros Hjr. apply list_lookup_insert_ne. lia.
    + rewrite (bind_ok _ _ s _ _ tt (set_channel_invalid s port c v Hp Hb Hbad)).
      reflexivity.
  - rewrite (bind_ok _ _ s _ _ tt (set_channel_disconnected s c v Hp)). reflexivity.
Qed.

(** Whatever its arguments and whether or not a handle is present,
    [set_channel c v] does not change what any other channel reads as. *)
Theorem set_channel_leaves_other_channels s c v j :
  channel_invariant s → j ≠ c →
  outcome ((set_channel c v;; get_channel_value j) s) = outcome (get_channel_value j s).
Proof. apply other_channels_unchanged. Qed.

Lemma set_channel_leaves_other_channels_witness :
  outcome ((set_channel 14 9;; get_channel_value 15) (holding 15 200))
  = outcome (get_channel_value 15 (holding 15 200)).
Proof.
  apply (set_channel_leaves_other_channels (holding 15 200) 14 9 15).
  - apply holding_invariant. lia.
  - lia.
Defined.

(** ** Writes one after the other *)

Lemma final_set_channel_valid s port c v :
  serial_port s = Some port → channel_invariant s →
  1 <= c <= num_channels s → 0 <= v <= 255 →
  final (set_channel c v s) = with_state s (<[Z.to_nat (c - 1) := v]> (current_state s))
  ∧ serial_port (final (set_channel c v s)) = Some port
  ∧ channel_invariant (final (set_channel c v s))
  ∧ num_channels (final (set_channel c v s)) = num_channels s.
Proof.
  intros Hp Hinv Hc Hv. rewrite (set_channel_valid s port c v Hp Hinv Hc Hv).
  destruct Hinv as [Hlen Hb]. unfold final, channel_invariant.
  cbn [fst with_state current_state num_channels serial_port].
  split; [reflexivity|]. split; [exact Hp|]. split; [|reflexivity]. split.
  - rewrite length_insert. exact Hlen.
  - apply Forall_insert; [exact Hb|exact Hv].
Qed.

(** On a controller that holds a handle, two valid writes to the same
    channel leave what the second alone would leave, and two valid writes
    to different channels leave the same array in either order. *)
Theorem set_channel_twice s port c1 v1 c2 v2 :
  serial_port s = Some port → channel_invariant s →
  1 <= c1 <= num_channels s → 0 <= v1 <= 255 →
  1 <= c2 <= num_channels s → 0 <= v2 <= 255 →
  (c1 = c2 →
   final ((set_channel c1 v1;; set_channel c2 v2) s) = final (set_channel c2 v2 s))
  ∧ (c1 ≠ c2 →
     final ((set_channel c1 v1;; set_channel c2 v2) s)
     = final ((set_channel c2 v2;; set_channel c1 v1) s)).
Proof.
  intros Hp Hinv Hc1 Hv1 Hc2 Hv2.
  assert (Hseq : ∀ a x b y, 1 <= a <= num_channels s → 0 <= x <= 255 →
                   1 <= b <= num_channels s → 0 <= y <= 255 →
            final ((set_channel a x;; set_channel b y) s)
            = with_state s (<[Z.to_nat (b - 1) := y]>
                              (<[Z.to_nat (a - 1) := x]> (current_state s)))).
  { intros a x b y Ha Hx Hb Hy.
    destruct (final_set_channel_valid s port a x Hp Hinv Ha Hx)
      as (Hf & Hp' & Hinv' & Hn').
    rewrite (bind_ok _ _ s _ _ tt (set_channel_valid s port a x Hp Hinv Ha Hx)).
    cbn [final fst]. rewrite <- Hf.
    destruct (final_set_channel_valid _ port b y Hp' Hinv' ltac:(lia) Hy) as (Hf2 & _).
    rewrite Hf2, Hf. reflexivity. }
  split.
  - intros <-. rewrite Hseq by assumption.
    destruct (final_set_channel_valid s port c1 v2 Hp Hinv Hc1 Hv2) as (-> & _).
    rewrite list_insert_insert_eq. reflexivity.
  - intros Hne. rewrite !Hseq by assumption.
    rewrite list_insert_insert_ne by lia. reflexivity.
Qed.

Lemma set_channel_twice_witness :
  final ((set_channel 3 7;; set_channel 5 9) (connected 32))
  = final ((set_channel 5 9;; set_channel 3 7) (connected 32)).
Proof.
  destruct (set_channel_twice (connected 32) {| is_open := true |} 3 7 5 9) as [_ H].
  - reflexivity.
  - apply new_controller_invariant.
  - cbn. lia.
  - lia.
  - cbn. lia.
  - lia.
  - apply H. lia.
Defined.

(** ** Reading a channel *)

(** [get_channel_value] never changes the controller and, when the array
    has its [N] entries, never raises: it returns [None], with a warning,
    exactly for the channels outside [1, N], and the stored value for the
    others. *)
Theorem get_channel_value_none_iff_out_of_range s c :
  length (current_state s) = Z.to_nat (num_channels s) →
  final (get_channel_value c s) = s
  ∧ (1 <= c <= num_channels s →
     ∃ x, current_state s !! Z.to_nat (c - 1) = Some x
          ∧ get_channel_value c s = (s, [], inr (Some x)))
  ∧ (¬ 1 <= c <= num_channels s →
     get_channel_value c s = (s, [Print (MsgInvalidChannelNumber c)], inr None))
  ∧ (outcome (get_channel_value c s) = inr None ↔ ¬ 1 <= c <= num_channels s).
Proof.
  intros Hlen.
  assert (Hin : 1 <= c <= num_channels s →
                ∃ x, current_state s !! Z.to_nat (c - 1) = Some x
                     ∧ get_channel_value c s = (s, [], inr (Some x))).
  { intros Hc. destruct (get_channel_value_valid s c Hlen Hc) as [Hget [x Hx]].
    exists x. split; [exact Hx|]. rewrite Hget, Hx. reflexivity. }
  assert (Hout : ¬ 1 <= c <= num_channels s →
                 get_channel_value c s
                 = (s, [Print (MsgInvalidChannelNumber c)], inr None)).
  { intros Hc. unfold get_channel_value. run_monad.
    replace ((1 <=? c) && (c <=? num_channels s)) with false by lia. reflexivity. }
  split; [apply get_channel_value_final|]. split; [exact Hin|]. split; [exact Hout|].
  split.
  - intros Hnone Hc. destruct (Hin Hc) as (x & _ & Hget).
    rewrite Hget in Hnone. discriminate Hnone.
  - intros Hc. rewrite (Hout Hc). reflexivity.
Qed.

Lemma get_channel_value_none_iff_out_of_range_witness :
  get_channel_value 33 (connected 32)
  = (connected 32, [Print (MsgInvalidChannelNumber 33)], inr None).
Proof.
  destruct (get_channel_value_none_iff_out_of_range (connected 32) 33)
    as (_ & _ & Hout & _).
  - reflexivity.
  - apply Hout. cbn. lia.
Defined.

(** ** A new controller *)

(** The array of a new controller is [N] zeros, and empty when [N] is 0
    or negative.  Every channel of [1, N] reads 0; every other channel
    number, and so every channel number when [N <= 0], reads [None] with
    the invalid-channel warning. *)
Theorem new_controller_reads_zero n handle :
  current_state (new_controller n handle) = replicate (Z.to_nat n) 0
  ∧ length (current_state (new_controller n handle)) = Z.to_nat n
  ∧ (n <= 0 → current_state (new_controller n handle) = [])
  ∧ (∀ i, 1 <= i <= n →
       get_channel_value i (new_controller n handle)
       = (new_controller n handle, [], inr (Some 0)))
  ∧ (∀ i, ¬ 1 <= i <= n →
       get_channel_value i (new_controller n handle)
       = (new_controller n handle, [Print (MsgInvalidChannelNumber i)], inr None))
  ∧ (n <= 0 → ∀ i,
       get_channel_value i (new_controller n handle)
       = (new_controller n handle, [Print (MsgInvalidChannelNumber i)], inr None)).
Proof.
  assert (Hout : ∀ i, ¬ 1 <= i <= n →
            get_channel_value i (new_controller n handle)
            = (new_controller n handle, [Print (MsgInvalidChannelNumber i)], inr None)).
  { intros i Hi. unfold get_channel_value. run_monad. cbn [num_channels new_controller].
    replace ((1 <=? i) && (i <=? n)) with false by lia. reflexivity. }
  split; [reflexivity|]. split; [apply length_replicate|].
  split.
  { intros Hn. cbn [current_state new_controller].
    replace (Z.to_nat n) with 0%nat by lia. reflexivity. }
  split; [|split; [exact Hout|]].
  - intros i Hi.
    destruct (get_channel_value_valid (new_controller n handle) i) as [Hget _].
    + apply length_replicate.
    + exact Hi.
    + rewrite Hget. cbn [current_state new_controller].
      rewrite lookup_replicate_2 by lia. reflexivity.
  - intros Hn i. apply Hout. lia.
Qed.

Lemma new_controller_reads_zero_witness :
  get_channel_value 32 (new_controller 32 None) = (new_controller 32 None, [], inr (Some 0))
  ∧ current_state (new_controller (-3) None) = []
  ∧ get_channel_value 1 (new_controller (-3) None)
    = (new_controller (-3) None, [Print (MsgInvalidChannelNumber 1)], inr None).
Proof.
  destruct (new_controller_reads_zero 32 None) as (_ & _ & _ & Hin & _).
  destruct (new_controller_reads_zero (-3) None) as (_ & _ & Hempty & _ & _ & Hnone).
  split; [apply Hin; lia|]. split; [apply Hempty; lia|]. apply Hnone. lia.
Defined.

(** ** [disconnect] *)

(** [disconnect] drops the handle and keeps the array.  With a handle it
    closes the port and says so; without one it only reports that there
    is nothing to disconnect, so a second [disconnect] changes nothing
    more.  After it no method changes the array. *)
Theorem disconnect_drops_the_handle s :
  serial_port (final (disconnect s)) = None
  ∧ current_state (final (disconnect s)) = current_state s
  ∧ num_channels (final (disconnect s)) = num_channels s
  ∧ output (disconnect s)
    = match serial_port s with
      | Some _ => [SerialClose; Print MsgDisconnected]
      | None => [Print MsgNoDevice]
      end
  ∧ (disconnect;; disconnect) s
    = (final (disconnect s), output (disconnect s) ++ [Print MsgNoDevice], inr tt)
  ∧ ∀ o, current_state (final ((disconnect;; run o) s)) = current_state s.
Proof.
  assert (Hd : disconnect s
               = (without_handle s, match serial_port s with
                             | Some _ => [SerialClose; Print MsgDisconnected]
                             | None => [Print MsgNoDevice]
                             end, inr tt)).
  { unfold disconnect, without_handle. run_monad.
    destruct s as [n [p|] l]; reflexivity. }
  assert (Hnone : serial_port (without_handle s) = None) by reflexivity.
  rewrite Hd. cbn [final output fst snd].
  split; [reflexivity|]. split; [reflexivity|]. split; [reflexivity|].
  split; [reflexivity|]. split.
  - rewrite (bind_ok _ _ s _ _ tt Hd).
    unfold disconnect at 1 2 3. run_monad. reflexivity.
  - intros o. rewrite (bind_ok _ _ s _ _ tt Hd). cbn [final fst].
    destruct (run_detached (current_state s) o (without_handle s)) as [_ Hl];
      [split; reflexivity|].
    exact Hl.
Qed.

(** ** [blackout] *)

(** [blackout] writes 0 to channel 1 and nothing else: on a controller
    that holds a handle the array afterwards is the old one with its
    first entry at 0, so every other channel reads as before. *)
Theorem blackout_touches_only_channel_one s port :
  serial_port s = Some port → channel_invariant s →
  current_state (final (blackout s)) = <[0%nat := 0]> (current_state s)
  ∧ ∀ j, j ≠ 1 →
      outcome ((blackout;; get_channel_value j) s) = outcome (get_channel_value j s).
Proof.
  intros Hp Hinv. pose proof Hinv as [Hlen Hb].
  assert (Hb1 : blackout s = set_channel 1 0 s) by reflexivity.
  split.
  - rewrite Hb1. destruct (decide (1 <= num_channels s)) as [Hn|Hn].
    + rewrite (set_channel_valid s port 1 0 Hp Hinv) by lia. reflexivity.
    + rewrite (set_channel_invalid s port 1 0 Hp Hb) by lia. cbn [final fst].
      symmetry. apply list_insert_ge. lia.
  - intros j Hj.
    assert (Hbind : (blackout;; get_channel_value j) s
                    = (set_channel 1 0;; get_channel_value j) s) by reflexivity.
    rewrite Hbind. apply other_channels_unchanged; assumption.
Qed.

Lemma blackout_touches_only_channel_one_witness :
  current_state (final (blackout (holding 15 200)))
  = <[0%nat := 0]> (current_state (holding 15 200)).
Proof.
  apply (blackout_touches_only_channel_one (holding 15 200) {| is_open := true |}).
  - reflexivity.
  - apply holding_invariant. lia.
Defined.

(** ** Node expansion on a short array *)

Lemma set_node_expansion_short s laser expansion delay :
  0 <= expansion <= 255 → num_channels s < drawing_channel laser →
  set_node_expansion laser expansion delay s
  = (s, [Print (MsgInvalidChannelNumber (drawing_channel laser))], inl TypeError).
Proof.
  intros He Hn. unfold set_node_expansion.
  replace ((0 <=? expansion) && (expansion <=? 255)) with true by lia. cbn [negb].
  fold (drawing_channel laser).
  unfold get_channel_value. run_monad.
  replace ((1 <=? drawing_channel laser) && (drawing_channel laser <=? num_channels s))
    with false by lia.
  reflexivity.
Qed.

(** When the gradual-drawing channel (15, or 32) does not exist because
    the controller has fewer channels, [set_node_expansion] with a valid
    expansion value prints the invalid-channel warning of the read and
    then stops on a [TypeError] (the comparison of [None] with 128); the
    controller is left as it was and nothing is sent. *)
Theorem node_expansion_raises_on_short_array s laser expansion delay :
  0 <= expansion <= 255 → num_channels s < drawing_channel laser →
  set_node_expansion laser expansion delay s
  = (s, [Print (MsgInvalidChannelNumber (drawing_channel laser))], inl TypeError).
Proof. apply set_node_expansion_short. Qed.

Lemma node_expansion_raises_on_short_array_witness :
  set_node_expansion 1 50 (Some 10) (connected 8)
  = (connected 8, [Print (MsgInvalidChannelNumber 15)], inl TypeError).
Proof.
  apply (node_expansion_raises_on_short_array (connected 8) 1 50 (Some 10)).
  - lia.
  - cbn. lia.
Defined.

(** ** Unknown mode names *)

(** A mode name that is not a key of the method's table is refused by
    every table-driven method, by [set_lamp_mode] and by
    [set_gradual_drawing]: the invalid-mode text with the table's keys is
    printed, the controller is left as it was and nothing is sent. *)
Theorem unknown_mode_is_refused f laser mode value s :
  laser = 1 ∨ laser = 2 → dict_get (feature_modes f) mode = None →
  encode f laser mode value s
  = (s, [Print (MsgInvalidMode (feature_label f) mode (keys (feature_modes f)))], inr tt)
  ∧ (dict_get lamp_modes mode = None →
     set_lamp_mode mode s
     = (s, [Print (MsgInvalidMode "mode" mode (keys lamp_modes))], inr tt))
  ∧ (dict_get gradual_drawing_modes mode = None →
     set_gradual_drawing laser mode value s
     = (s, [Print (MsgInvalidMode "mode" mode (keys gradual_drawing_modes))], inr tt)).
Proof.
  intros Hl Hm. split; [|split].
  - feature_cases f Hl Hm; reflexivity.
  - intros H. unfold set_lamp_mode. rewrite H. reflexivity.
  - intros H. unfold set_gradual_drawing. rewrite H. reflexivity.
Qed.

Lemma unknown_mode_is_refused_witness :
  encode StrobeFlash 1 "blink" (Some 20) (connected 32)
  = (connected 32, [Print (MsgInvalidMode "mode" "blink" (keys strobe_flash_modes))],
     inr tt).
Proof.
  apply (unknown_mode_is_refused StrobeFlash 1 "blink" (Some 20) (connected 32)).
  - left. reflexivity.
  - reflexivity.
Defined.

(** ** Laser numbers other than 1 and 2 *)

(** Only [set_pattern_size] checks the laser number.  Every other
    per-laser method treats any number other than 1 as laser 2; and
    [set_gradual_drawing], whose check of the expansion channel is
    written for lasers 1 and 2 only, then writes a manual value to
    channel 32 without looking at any other channel. *)
Theorem laser_number_other_than_one s laser mode value :
  laser ≠ 1 →
  (∀ f, f ≠ PatternSize → encode f laser mode value s = encode f 2 mode value s)
  ∧ (∀ x, select_pattern laser x s = select_pattern 2 x s)
  ∧ set_forced_color laser mode value s = set_forced_color 2 mode value s
  ∧ (∀ x, set_node_expansion laser x value s = set_node_expansion 2 x value s)
  ∧ (∀ x, set_distortion_degree laser x s = set_distortion_degree 2 x s)
  ∧ (laser ≠ 2 →
     set_pattern_size laser mode value s = (s, [Print MsgInvalidLaser], inr tt)
     ∧ ∀ m v, m = "forward_manual" ∨ m = "reverse_manual" → 0 <= v <= manual_ceiling m →
         set_gradual_drawing laser m (Some v) s = set_channel 32 v s).
Proof.
  intros H1. assert (E1 : (laser =? 1) = false) by lia.
  split; [|split; [|split; [|split; [|split]]]].
  - intros f Hf. destruct f; cbn [encode]; try contradiction; unfold_features;
      rewrite ?E1; reflexivity.
  - intros x. unfold select_pattern. rewrite E1. reflexivity.
  - unfold set_forced_color. rewrite E1. reflexivity.
  - intros x. unfold set_node_expansion. rewrite E1. reflexivity.
  - intros x. unfold set_distortion_degree. rewrite E1. reflexivity.
  - intros H2. assert (E2 : (laser =? 2) = false) by lia. split.
    + unfold set_pattern_size. rewrite E1, E2. reflexivity.
    + intros m v Hm Hv. unfold set_gradual_drawing, manual_ceiling in *.
      destruct Hm as [-> | ->]; cbn -[Z.leb set_channel get_channel_value] in *;
        (replace ((0 <=? v) && (v <=? _)) with true by lia);
        rewrite E1, E2; reflexivity.
Qed.

Lemma laser_number_other_than_one_witness :
  set_gradual_drawing 3 "forward_manual" (Some 100) (connected 32)
  = set_channel 32 100 (connected 32).
Proof.
  destruct (laser_number_other_than_one (connected 32) 3 "forward_manual" (Some 100))
    as (_ & _ & _ & _ & _ & H).
  - lia.
  - destruct H as [_ H]; [lia|]. apply H; [left; reflexivity|cbn; lia].
Defined.

(** ** The other branches of [set_gradual_drawing] *)

(** When [set_channel] returns normally after printing exactly one text,
    the text is the not-connected error or the send error. *)
Lemma set_channel_single_print c v s s' m :
  set_channel c v s = (s', [Print m], inr tt) → m = MsgNotConnected ∨ m = MsgSendError.
Proof.
  unfold set_channel, send_dmx_packet. run_monad.
  destruct (serial_port s) as [port|]; [|intros [= _ <-]; left; reflexivity].
  cbn [update_channels]. run_monad.
  destruct ((1 <=? c) && (c <=? num_channels s) && ((0 <=? v) && (v <=? 255))).
  - unfold setitem. run_monad. destruct (py_index _ _); cbn; [|discriminate].
    destruct (build_packet _); cbn; [discriminate|].
    unfold serial_write. destruct (is_open port); cbn; [discriminate|].
    intros [= _ <-]. right. reflexivity.
  - cbn. destruct (build_packet _); cbn; [discriminate|].
    unfold serial_write. destruct (is_open port); discriminate.
Qed.

(** For the four automatic sub-modes [set_gradual_drawing] ignores the
    manual value and the expansion channel and writes the lower bound of
    the sub-range (128, 160, 192 or 224) to channel 15 (or 32).  For a
    manual sub-mode a value outside [0, ceiling] is refused before the
    expansion channel is looked at.  The ceiling is not the table entry:
    ["reverse_manual"], whose entry is 64 to 127, passes a value on only
    if it lies in 0 to 63. *)
Theorem gradual_drawing_other_branches s laser value :
  laser = 1 ∨ laser = 2 →
  set_gradual_drawing laser "dynamic_A" value s = set_channel (drawing_channel laser) 128 s
  ∧ set_gradual_drawing laser "dynamic_B" value s
    = set_channel (drawing_channel laser) 160 s
  ∧ set_gradual_drawing laser "dynamic_C" value s
    = set_channel (drawing_channel laser) 192 s
  ∧ set_gradual_drawing laser "dynamic_D" value s
    = set_channel (drawing_channel laser) 224 s
  ∧ (∀ mode v, mode = "forward_manual" ∨ mode = "reverse_manual" →
       ¬ 0 <= v <= manual_ceiling mode →
       set_gradual_drawing laser mode (Some v) s
       = (s, [Print (MsgManualOutOfRange mode)], inr tt))
  ∧ (∀ v, set_gradual_drawing laser "reverse_manual" (Some v) s
          = set_channel (drawing_channel laser) v s →
          0 <= v <= 63).
Proof.
  intros Hl.
  assert (Hout : ∀ mode v, mode = "forward_manual" ∨ mode = "reverse_manual" →
            ¬ 0 <= v <= manual_ceiling mode →
            set_gradual_drawing laser mode (Some v) s
            = (s, [Print (MsgManualOutOfRange mode)], inr tt)).
  { intros mode v Hm Hv. unfold set_gradual_drawing, manual_ceiling in *.
    destruct Hm as [-> | ->]; cbn -[Z.leb set_channel get_channel_value] in *;
      (replace ((0 <=? v) && (v <=? _)) with false by lia); reflexivity. }
  split; [reflexivity|]. split; [reflexivity|]. split; [reflexivity|].
  split; [reflexivity|]. split; [exact Hout|].
  intros v Heq. destruct (decide (0 <= v <= 63)) as [Hv|Hv]; [exact Hv|].
  rewrite (Hout "reverse_manual" v) in Heq by (auto; cbn; exact Hv).
  symmetry in Heq. apply set_channel_single_print in Heq.
  destruct Heq as [Heq|Heq]; discriminate Heq.
Qed.

Lemma gradual_drawing_other_branches_witness :
  set_gradual_drawing 2 "dynamic_C" (Some 7) (connected 32)
  = set_channel 32 192 (connected 32).
Proof.
  apply (gradual_drawing_other_branches (connected 32) 2 (Some 7)).
  right. reflexivity.
Defined.

(** ** Forced colour *)

(** [set_forced_color] writes 0 for ["primary"], whatever value is
    passed.  For ["change_every_n"] it demands a value and passes it on
    exactly when it lies in [1, 255], so this mode never writes the 0
    that means primary.  Any other mode name is refused. *)
Theorem forced_color_modes s laser value :
  laser = 1 ∨ laser = 2 →
  let channel := if laser =? 1 then 11 else 28 in
  set_forced_color laser "primary" value s = set_channel channel 0 s
  ∧ set_forced_color laser "change_every_n" None s = (s, [Print MsgNRequired], inr tt)
  ∧ (∀ n, set_forced_color laser "change_every_n" (Some n) s = set_channel channel n s
          ↔ 1 <= n <= 255)
  ∧ (∀ n, ¬ 1 <= n <= 255 →
          set_forced_color laser "change_every_n" (Some n) s
          = (s, [Print MsgNOutOfRange], inr tt))
  ∧ (∀ mode, mode ≠ "primary" → mode ≠ "change_every_n" →
             set_forced_color laser mode value s = (s, [Print MsgInvalidColorMode], inr tt)).
Proof.
  intros Hl channel.
  assert (Hbad : ∀ n, ¬ 1 <= n <= 255 →
            set_forced_color laser "change_every_n" (Some n) s
            = (s, [Print MsgNOutOfRange], inr tt)).
  { intros n Hn. unfold set_forced_color. cbn [String.eqb Ascii.eqb Bool.eqb].
    replace ((1 <=? n) && (n <=? 255)) with false by lia. reflexivity. }
  split; [reflexivity|]. split; [reflexivity|]. split; [|split; [exact Hbad|]].
  - intros n. split.
    + intros Heq. destruct (decide (1 <= n <= 255)) as [Hn|Hn]; [exact Hn|].
      rewrite (Hbad n Hn) in Heq. symmetry in Heq.
      apply set_channel_single_print in Heq. destruct Heq as [Heq|Heq]; discriminate Heq.
    + intros Hn. unfold set_forced_color. cbn [String.eqb Ascii.eqb Bool.eqb].
      replace ((1 <=? n) && (n <=? 255)) with true by lia. reflexivity.
  - intros mode Hp Hc. unfold set_forced_color.
    destruct (String.eqb_spec mode "primary") as [?|_]; [contradiction|].
    destruct (String.eqb_spec mode "change_every_n") as [?|_]; [contradiction|].
    reflexivity.
Qed.

Lemma forced_color_modes_witness :
  set_forced_color 2 "change_every_n" (Some 0) (connected 32)
  = (connected 32, [Print MsgNOutOfRange], inr tt).
Proof.
  destruct (forced_color_modes (connected 32) 2 (Some 0)) as (_ & _ & _ & H & _).
  - right. reflexivity.
  - apply H. lia.
Defined.

(** ** The tables *)

Lemma dict_get_In {V} (d : list (string * V)) k v : dict_get d k = Some v → In (k, v) d.
Proof.
  induction d as [|[k' v'] d IH]; cbn [dict_get]; [discriminate|].
  destruct (String.eqb_spec k k') as [->|_].
  - intros [= ->]. left. reflexivity.
  - intros H. right. apply IH, H.
Qed.

Lemma In_dict_get {V} (d : list (string * V)) k v :
  List.NoDup (keys d) → In (k, v) d → dict_get d k = Some v.
Proof.
  induction d as [|[k' v'] d IH]; cbn [dict_get keys map fst]; [intros _ []|].
  intros Hnd [[= -> ->]|Hin].
  - rewrite String.eqb_refl. reflexivity.
  - inversion Hnd as [|? ? Hnotin Hnd']; subst.
    destruct (String.eqb_spec k k') as [->|_]; [|apply IH; assumption].
    exfalso. apply Hnotin. change (In k' (map fst d)).
    apply (in_map fst) in Hin. exact Hin.
Qed.

Lemma tiles_cover d lo hi v :
  tiles d lo hi = true → lo <= v <= hi →
  ∃ k a b, In (k, (a, b)) d ∧ a <= v <= b.
Proof.
  revert lo. induction d as [|[k [a b]] d IH]; intros lo; cbn [tiles].
  - intros H Hv. lia.
  - intros H Hv. apply andb_prop in H as [H Hrest].
    destruct (decide (v <= b)) as [Hb|Hb].
    + exists k, a, b. split; [left; reflexivity|lia].
    + destruct (IH (b + 1) Hrest ltac:(lia)) as (k' & a' & b' & Hin & Hv').
      exists k', a', b'. split; [right; exact Hin|exact Hv'].
Qed.

Lemma tiles_bounds d lo hi k a b :
  tiles d lo hi = true → In (k, (a, b)) d → lo <= a ∧ a <= b ∧ b <= hi.
Proof.
  revert lo. induction d as [|[k' [a' b']] d IH]; intros lo; cbn [tiles]; [intros _ []|].
  intros H [[= -> -> ->]|Hin]; apply andb_prop in H as [H Hrest].
  - lia.
  - specialize (IH (b' + 1) Hrest Hin). lia.
Qed.

Lemma tiles_disjoint d lo hi k1 a1 b1 k2 a2 b2 v :
  tiles d lo hi = true → List.NoDup (keys d) →
  In (k1, (a1, b1)) d → In (k2, (a2, b2)) d →
  a1 <= v <= b1 → a2 <= v <= b2 → k1 = k2.
Proof.
  revert lo. induction d as [|[k [a b]] d IH]; intros lo; cbn [tiles]; [intros _ _ []|].
  intros H Hnd H1 H2 Hv1 Hv2. apply andb_prop in H as [H Hrest].
  inversion Hnd as [|? ? _ Hnd']; subst.
  destruct H1 as [[= -> -> ->]|H1], H2 as [[= -> -> ->]|H2].
  - reflexivity.
  - pose proof (tiles_bounds d (b1 + 1) hi k2 a2 b2 Hrest H2). lia.
  - pose proof (tiles_bounds d (b2 + 1) hi k1 a1 b1 Hrest H1). lia.
  - apply (IH (b + 1) Hrest Hnd' H1 H2 Hv1 Hv2).
Qed.

Lemma feature_modes_tile f : tiles (feature_modes f) 0 (feature_top f) = true.
Proof. destruct f; reflexivity. Qed.

Lemma feature_modes_NoDup f : List.NoDup (keys (feature_modes f)).
Proof.
  destruct f; cbn;
    repeat (constructor; [cbn; intuition discriminate|]); constructor.
Qed.

(** In each of the twelve tables the entries follow one another without
    gap or overlap from 0 up to the table's top (223 for node
    highlighting and horizontal flip, 255 for the others): every value of
    that span is passed on under exactly one mode name, and a value above
    the top under none. *)
Theorem each_value_has_one_mode f v :
  0 <= v <= 255 →
  (v <= feature_top f →
   ∃ mode, accepts f mode v ∧ ∀ mode', accepts f mode' v → mode' = mode)
  ∧ (feature_top f < v → ∀ mode, ¬ accepts f mode v)
  ∧ (∀ mode lo hi, dict_get (feature_modes f) mode = Some (lo, hi) →
       0 <= lo ∧ lo <= hi ∧ hi <= feature_top f).
Proof.
  intros Hv.
  pose proof (feature_modes_tile f) as Ht. pose proof (feature_modes_NoDup f) as Hnd.
  assert (Hbounds : ∀ mode lo hi, dict_get (feature_modes f) mode = Some (lo, hi) →
                      0 <= lo ∧ lo <= hi ∧ hi <= feature_top f).
  { intros mode lo hi Hm. apply (tiles_bounds _ _ _ mode lo hi Ht), dict_get_In, Hm. }
  split; [|split; [|exact Hbounds]].
  - intros Htop.
    destruct (tiles_cover _ 0 (feature_top f) v Ht ltac:(lia)) as (k & a & b & Hin & Hk).
    exists k. split.
    + exists a, b. split; [apply In_dict_get; assumption|exact Hk].
    + intros mode' (a' & b' & Hm' & Hk').
      apply (tiles_disjoint _ _ _ mode' a' b' k a b v Ht Hnd); try assumption.
      apply dict_get_In, Hm'.
  - intros Htop mode (lo & hi & Hm & Hk). specialize (Hbounds mode lo hi Hm). lia.
Qed.

Lemma each_value_has_one_mode_witness :
  ∃ mode, accepts StrobeFlash mode 140
          ∧ ∀ mode', accepts StrobeFlash mode' 140 → mode' = mode.
Proof.
  apply (each_value_has_one_mode StrobeFlash 140); cbn; lia.
Defined.

(** ** From the mode to the array *)

(** On a controller that holds a handle and has the 32 channels of the
    device, a table-driven call that is not refused is visible to the
    next read of the method's channel: the read returns the explicit
    value, or the lower bound of the sub-range when no value was given. *)
Theorem mode_then_read f laser mode lo hi s port :
  serial_port s = Some port → channel_invariant s → 32 <= num_channels s →
  laser = 1 ∨ laser = 2 → dict_get (feature_modes f) mode = Some (lo, hi) →
  outcome ((encode f laser mode None;; get_channel_value (feature_channel f laser)) s)
  = inr (Some lo)
  ∧ ∀ v, lo <= v <= hi →
      outcome ((encode f laser mode (Some v);; get_channel_value (feature_channel f laser)) s)
      = inr (Some v).
Proof.
  intros Hp Hinv Hn Hl Hm.
  assert (Hch : 1 <= feature_channel f laser <= num_channels s)
    by (destruct f, Hl as [-> | ->]; cbn; lia).
  assert (Hb : 0 <= lo ∧ lo <= hi ∧ hi <= feature_top f).
  { apply (tiles_bounds _ _ _ mode lo hi (feature_modes_tile f)), dict_get_In, Hm. }
  assert (Htop : feature_top f <= 255) by (destruct f; cbn; lia).
  assert (Hread : ∀ v, 0 <= v <= 255 →
            outcome (get_channel_value (feature_channel f laser)
                       (final (set_channel (feature_channel f laser) v s)))
            = inr (Some v)).
  { intros v Hv.
    pose proof (set_then_get s port (feature_channel f laser) v Hp Hinv Hch Hv) as Hsg.
    rewrite (bind_ok _ _ s _ _ tt
               (set_channel_valid s port (feature_channel f laser) v Hp Hinv Hch Hv))
      in Hsg.
    rewrite (set_channel_valid s port (feature_channel f laser) v Hp Hinv Hch Hv).
    cbn [final fst]. injection Hsg as _ _ Hout. exact Hout. }
  split.
  - pose proof (set_channel_valid s port (feature_channel f laser) lo Hp Hinv Hch
                  ltac:(lia)) as Hset.
    assert (Henc : encode f laser mode None s
                   = (final (set_channel (feature_channel f laser) lo s),
                      Print (MsgUsingDefault lo mode lo hi)
                      :: output (set_channel (feature_channel f laser) lo s), inr tt)).
    { rewrite (encode_default f laser mode lo hi s Hl Hm).
      rewrite (bind_ok (print _) _ s s [Print (MsgUsingDefault lo mode lo hi)] tt eq_refl).
      rewrite Hset. reflexivity. }
    rewrite (bind_ok _ _ s _ _ tt Henc). cbn [outcome snd]. apply Hread. lia.
  - intros v Hv.
    pose proof (set_channel_valid s port (feature_channel f laser) v Hp Hinv Hch
                  ltac:(lia)) as Hset.
    assert (Henc : encode f laser mode (Some v) s
                   = (final (set_channel (feature_channel f laser) v s),
                      output (set_channel (feature_channel f laser) v s), inr tt)).
    { rewrite (encode_accepts f laser mode lo hi v s Hl Hm Hv), Hset. reflexivity. }
    rewrite (bind_ok _ _ s _ _ tt Henc). cbn [outcome snd]. apply Hread. lia.
Qed.

Lemma mode_then_read_witness :
  outcome ((encode ColorChange 1 "green" None;; get_channel_value 29) (connected 32))
  = inr (Some 32).
Proof.
  apply (mode_then_read ColorChange 1 "green" 32 39 (connected 32) {| is_open := true |}).
  - reflexivity.
  - apply new_controller_invariant.
  - cbn. lia.
  - left. reflexivity.
  - reflexivity.
Defined.

(** ** No exception, one frame *)

Lemma operations_keep_invariant_aux o s :
  channel_invariant s →
  channel_invariant (final (run o s))
  ∧ num_channels (final (run o s)) = num_channels s
  ∧ length (current_state (final (run o s))) = length (current_state s).
Proof.
  intros [Hlen Hb].
  destruct (run_shape (num_channels s) (length (current_state s)) o s) as [Hn Hk];
    [split; reflexivity|].
  pose proof (run_bytes o s Hb) as Hb'.
  repeat split; try assumption. rewrite Hk, Hn. exact Hlen.
Qed.


Lemma packets_sent_app out1 out2 :
  packets_sent (out1 ++ out2) = packets_sent out1 ++ packets_sent out2.
Proof.
  induction out1 as [|[m|p|] out1 IH]; cbn [app packets_sent]; rewrite ?IH; reflexivity.
Qed.

Lemma packets_sent_skipped n items : packets_sent (skipped_entries n items) = [].
Proof.
  induction items as [|item rest IH]; cbn [skipped_entries]; [reflexivity|].
  destruct (valid_entry n item); exact IH.
Qed.

Lemma quiet_print m : quiet (print m).
Proof. intros s _. repeat split. exists tt. reflexivity. Qed.

Lemma quiet_self : quiet self.
Proof. intros s _. repeat split. exists s. reflexivity. Qed.

Lemma quiet_ret {A} (a : A) : quiet (mret a).
Proof. intros s _. repeat split. exists a. reflexivity. Qed.

Lemma quiet_get_channel_value c : quiet (get_channel_value c).
Proof.
  intros s [Hlen _]. destruct (decide (1 <= c <= num_channels s)) as [Hc|Hc].
  - destruct (get_channel_value_valid s c Hlen Hc) as [-> _].
    repeat split. eexists. reflexivity.
  - unfold get_channel_value. run_monad.
    replace ((1 <=? c) && (c <=? num_channels s)) with false by lia.
    repeat split. exists None. reflexivity.
Qed.

Lemma quiet_get_current_state : quiet get_current_state.
Proof. intros s _. repeat split. eexists. reflexivity. Qed.

Lemma well_behaved_quiet {A} (m : M A) : quiet m → well_behaved m.
Proof. intros H s Hs. destruct (H s Hs) as (_ & Hp & Hr). split; [exact Hr|left; exact Hp]. Qed.

Lemma well_behaved_bind {A B} (m : M A) (f : A → M B) :
  quiet m → (∀ a, well_behaved (f a)) → well_behaved (m ≫= f).
Proof.
  intros Hm Hf s Hs. destruct (Hm s Hs) as (Hfin & Hp & [a Ha]).
  assert (Hms : m s = (s, output (m s), inr a)).
  { unfold final, outcome, output in *. destruct (m s) as [[s1 out1] r]. cbn in *.
    congruence. }
  rewrite (bind_ok m f s s (output (m s)) a Hms).
  destruct (Hf a s Hs) as [Hr Hsend]. split; [exact Hr|].
  unfold sends_current_frame in *. cbn [output final fst snd].
  rewrite packets_sent_app, Hp. exact Hsend.
Qed.

Lemma well_behaved_send_dmx_packet cv : well_behaved (send_dmx_packet cv).
Proof.
  intros s Hinv. destruct (serial_port s) as [port|] eqn:Hp.
  - assert (Hcv : ∃ items, send_dmx_packet cv s = send_dmx_packet (Some items) s).
    { destruct cv as [items|]; [exists items|exists []]; reflexivity. }
    destruct Hcv as [items ->].
    rewrite (send_dmx_packet_fold items s port Hp Hinv).
    split; [exists tt; reflexivity|].
    unfold sends_current_frame. cbn [output final fst snd with_state current_state].
    rewrite packets_sent_app, packets_sent_skipped. unfold wire.
    destruct (is_open port); [right|left]; reflexivity.
  - rewrite (send_dmx_packet_disconnected cv s Hp).
    split; [exists tt; reflexivity|left; reflexivity].
Qed.

Lemma well_behaved_disconnect : well_behaved disconnect.
Proof.
  intros s _. unfold disconnect. run_monad.
  destruct (serial_port s); (split; [exists tt; reflexivity|left; reflexivity]).
Qed.

Ltac well_behaved_step :=
  lazymatch goal with
  | |- well_behaved (set_channel _ _) => apply well_behaved_send_dmx_packet
  | |- well_behaved (send_dmx_packet _) => apply well_behaved_send_dmx_packet
  | |- well_behaved (print _) => apply well_behaved_quiet, quiet_print
  | |- well_behaved (mret _) => apply well_behaved_quiet, quiet_ret
  | |- well_behaved (get_channel_value _ ≫= _) =>
      apply well_behaved_bind; [apply quiet_get_channel_value|intros ?]
  | |- well_behaved (get_current_state ≫= _) =>
      apply well_behaved_bind; [apply quiet_get_current_state|intros ?]
  | |- well_behaved (print _ ≫= _) =>
      apply well_behaved_bind; [apply quiet_print|intros ?]
  | |- well_behaved (self ≫= _) =>
      apply well_behaved_bind; [apply quiet_self|intros ?]
  | |- well_behaved (match ?x with _ => _ end) => destruct x
  end.

Lemma well_behaved_run o :
  (∀ l e d, o ≠ OpSetNodeExpansion l e d) → well_behaved (run o).
Proof.
  intros Hne. destruct o; cbn [run];
    try exact well_behaved_disconnect;
    try (exfalso; eapply Hne; reflexivity);
    unfold set_lamp_mode, set_pattern_size, select_gallery, select_pattern,
      set_pattern_zooming, set_pattern_rotation, set_horizontal_movement,
      set_vertical_movement, set_horizontal_zooming, set_vertical_zooming,
      set_forced_color, set_strobe_flash, set_node_highlighting,
      set_gradual_drawing, set_distortion_degree,
      set_second_lamp_pattern, set_pattern_library_selection,
      set_horizontal_flip, set_vertical_flip, set_color_change, blackout,
      set_lamp_mode, reset_all_channels;
    repeat well_behaved_step.
Qed.

(** Helper: [set_node_expansion] once the read of the gradual-drawing
    channel has succeeded. *)
Lemma set_node_expansion_long s laser expansion delay :
  channel_invariant s → drawing_channel laser <= num_channels s →
  ∃ m : M unit, set_node_expansion laser expansion delay s = m s
                ∧ (m = print MsgExpansionOutOfRange ∨ m = print MsgDelayRequired
                   ∨ m = print MsgDelayOutOfRange
                   ∨ ∃ c v, m = set_channel c v).
Proof.
  intros [Hlen _] Hn. unfold set_node_expansion.
  destruct (negb ((0 <=? expansion) && (expansion <=? 255))); [eauto|].
  fold (drawing_channel laser).
  assert (Hd : 1 <= drawing_channel laser <= num_channels s)
    by (unfold drawing_channel in *; destruct (laser =? 1); lia).
  destruct (get_channel_value_valid s _ Hlen Hd) as [Hget [x Hx]]. rewrite Hx in Hget.
  rewrite (bind_pure _ _ s (Some x) Hget). cbn [ge_int].
  rewrite (bind_pure _ _ s (128 <=? x) eq_refl).
  destruct (128 <=? x); [|eauto 10].
  destruct delay as [d|]; [|eauto 10].
  destruct (negb ((0 <=? d) && (d <=? 255))); eauto 10.
Qed.

(** On a controller that satisfies the invariant no method lets a Python
    exception escape, with one exception: [set_node_expansion] when the
    gradual-drawing channel it reads lies beyond the last channel. *)
Theorem no_method_raises o s :
  channel_invariant s →
  (∀ laser expansion delay, o = OpSetNodeExpansion laser expansion delay →
     drawing_channel laser <= num_channels s) →
  outcome (run o s) = inr tt.
Proof.
  intros Hinv Hlong.
  assert (Hret : returns_normally (run o s)).
  { destruct o; try (refine (proj1 (well_behaved_run _ _ s Hinv)); discriminate).
    cbn [run].
    destruct (set_node_expansion_long s laser_num expansion_value delay_value Hinv
                (Hlong _ _ _ eq_refl))
      as (m & -> & [->|[->|[->|(c & v & ->)]]]);
      try (exists tt; reflexivity).
    apply (well_behaved_send_dmx_packet _ s Hinv). }
  destruct Hret as [[] Hr]. exact Hr.
Qed.

Lemma no_method_raises_witness :
  outcome (run (OpSetGradualDrawing 1 "forward_manual" (Some 5)) (connected 8)) = inr tt.
Proof.
  apply (no_method_raises (OpSetGradualDrawing 1 "forward_manual" (Some 5)) (connected 8)).
  - apply new_controller_invariant.
  - intros laser expansion delay H. discriminate H.
Defined.

(** On a controller that satisfies the invariant every method sends at
    most one packet, and the packet is the start code followed by the
    array exactly as the call leaves it: [N + 1] bytes. *)
Theorem at_most_one_packet_per_call o s :
  channel_invariant s →
  sends_current_frame (run o s)
  ∧ ∀ packet, In packet (packets_sent (output (run o s))) →
      packet = 0 :: current_state (final (run o s))
      ∧ length packet = S (Z.to_nat (num_channels s)).
Proof.
  intros Hinv.
  assert (Hsend : sends_current_frame (run o s)).
  { destruct o; try (refine (proj2 (well_behaved_run _ _ s Hinv)); discriminate).
    cbn [run].
    destruct (decide (drawing_channel laser_num <= num_channels s)) as [Hn|Hn].
    - destruct (set_node_expansion_long s laser_num expansion_value delay_value Hinv Hn)
        as (m & -> & [->|[->|[->|(c & v & ->)]]]);
        try (left; reflexivity).
      apply (well_behaved_send_dmx_packet _ s Hinv).
    - unfold set_node_expansion.
      destruct (negb ((0 <=? expansion_value) && (expansion_value <=? 255))) eqn:E;
        [left; reflexivity|].
      left. fold (drawing_channel laser_num).
      unfold get_channel_value. run_monad.
      replace ((1 <=? drawing_channel laser_num)
               && (drawing_channel laser_num <=? num_channels s)) with false by lia.
      reflexivity. }
  split; [exact Hsend|].
  intros packet Hin.
  destruct (operations_keep_invariant_aux o s Hinv) as ([Hlen' _] & Hn' & _).
  destruct Hsend as [Hs|Hs]; rewrite Hs in Hin; [destruct Hin|].
  destruct Hin as [<-|[]]. split; [reflexivity|].
  cbn [length]. rewrite Hlen', Hn'. reflexivity.
Qed.

Lemma at_most_one_packet_per_call_witness :
  sends_current_frame (run OpResetAllChannels (holding 15 200)).
Proof.
  apply (at_most_one_packet_per_call OpResetAllChannels (holding 15 200)).
  apply holding_invariant. lia.
Defined.

(** ** The methods only ask for valid writes *)

Lemma skipped_entries_zero k (lst : list Z) :
  Forall (λ i, 1 <= i <= k) lst → skipped_entries k (map (λ i : Z, (i, 0)) lst) = [].
Proof.
  induction 1 as [|i lst Hi _ IH]; [reflexivity|]. cbn [map skipped_entries].
  replace (valid_entry k (i, 0)) with true by (cbv [valid_entry fst snd]; lia).
  exact IH.
Qed.

Lemma table_entry_bytes (d : list (string * (Z * Z))) mode lo hi :
  tiles d 0 223 = true ∨ tiles d 0 255 = true →
  dict_get d mode = Some (lo, hi) → 0 <= lo ∧ lo <= hi ∧ hi <= 255.
Proof.
  intros [Ht|Ht] Hm; apply dict_get_In in Hm;
    pose proof (tiles_bounds _ _ _ _ _ _ Ht Hm); lia.
Qed.

Lemma lamp_entry_bytes mode e :
  dict_get lamp_modes mode = Some e →
  match e with Scalar v => 0 <= v <= 255 | Range r => 0 <= r.1 <= 255 end.
Proof.
  intros H. apply dict_get_In in H. cbn in H.
  repeat (destruct H as [[= <- <-]|H]; [cbn; lia|]). destruct H.
Qed.

Lemma calm_print m : (∀ c v, m ≠ MsgInvalidChannelOrValue c v) → calm (print m).
Proof.
  intros Hm s _. split; [reflexivity|]. intros c v [[= H]|[]]. exact (Hm c v H).
Qed.

Lemma calm_pure {A} (m : M A) : (∀ s, ∃ r, m s = (s, [], r)) → calm m.
Proof.
  intros H s _. destruct (H s) as [r ->]. split; [reflexivity|]. intros c v [].
Qed.

Lemma calm_get_channel_value c : calm (get_channel_value c).
Proof.
  intros s _. split; [apply get_channel_value_final|].
  unfold get_channel_value, getitem. run_monad.
  destruct ((1 <=? c) && (c <=? num_channels s)).
  - destruct (py_index _ _); [|intros ? ? []].
    destruct (current_state s !! _); intros ? ? [].
  - intros ? ? [[=]|[]].
Qed.

Lemma calm_ge_int x n : calm (ge_int x n).
Proof. apply calm_pure. intros s. destruct x; eexists; reflexivity. Qed.

Lemma tidy_calm {A} (m : M A) : calm m → tidy m.
Proof. intros H s Hs _. apply (H s Hs). Qed.

Lemma tidy_bind {A B} (m : M A) (f : A → M B) :
  calm m → (∀ a, tidy (f a)) → tidy (m ≫= f).
Proof.
  intros Hm Hf s Hs Hn. destruct (Hm s Hs) as [Hfin Hout].
  unfold never_refused, final, output, mbind, M_bind in *.
  destruct (m s) as [[s1 out1] [e|a]]; cbn in *; [exact Hout|]. subst s1.
  specialize (Hf a s Hs Hn). unfold never_refused, output in Hf.
  destruct (f a s) as [[s2 out2] r]. cbn in *.
  intros c v Hin. apply in_app_or in Hin as [Hin|Hin]; [exact (Hout c v Hin)|].
  exact (Hf c v Hin).
Qed.

Lemma tidy_set_channel c v : 1 <= c <= 32 → 0 <= v <= 255 → tidy (set_channel c v).
Proof.
  intros Hc Hv s Hinv Hn. destruct (serial_port s) as [port|] eqn:Hp.
  - rewrite (set_channel_valid s port c v Hp Hinv) by lia.
    intros c' v' [Hin|[]]. unfold wire in Hin. destruct (is_open port); discriminate Hin.
  - rewrite (set_channel_disconnected s c v Hp). intros c' v' [[=]|[]].
Qed.

Lemma tidy_reset_all_channels : tidy reset_all_channels.
Proof.
  intros s Hinv Hn. unfold reset_all_channels. rewrite (bind_pure self _ s s eq_refl).
  destruct (serial_port s) as [port|] eqn:Hp.
  - rewrite (send_dmx_packet_fold _ s port Hp Hinv).
    rewrite skipped_entries_zero by (apply Forall_seqZ; intros; lia).
    intros c' v' [Hin|[]]. unfold wire in Hin. destruct (is_open port); discriminate Hin.
  - rewrite (send_dmx_packet_disconnected _ s Hp). intros c' v' [[=]|[]].
Qed.

Lemma tidy_disconnect : tidy disconnect.
Proof.
  intros s _ _. unfold disconnect. run_monad.
  destruct (serial_port s); intros c v Hin; cbn in Hin;
    repeat (destruct Hin as [Hin|Hin]; [discriminate Hin|]); destruct Hin.
Qed.

Ltac entry_bounds :=
  repeat match goal with
    | H : dict_get lamp_modes _ = Some _ |- _ => apply lamp_entry_bytes in H
    | H : dict_get _ _ = Some (_, _) |- _ =>
        apply table_entry_bytes in H; [|first [left; reflexivity|right; reflexivity]]
    end.

Ltac valid_write :=
  apply tidy_set_channel;
  entry_bounds; unfold in_range in *; cbn [fst snd] in *;
  repeat match goal with
    | |- context [if ?b then _ else _] => destruct b
    | H : context [if ?b then _ else _] |- _ => destruct b
    end;
  lia.

Ltac tidy_step :=
  lazymatch goal with
  | |- tidy (set_channel _ _) => valid_write
  | |- tidy (print _) => apply tidy_calm, calm_print; discriminate
  | |- tidy (mret _) => apply tidy_calm, calm_pure; intros ?; eexists; reflexivity
  | |- tidy (print _ ≫= _) =>
      apply tidy_bind; [apply calm_print; discriminate|intros ?]
  | |- tidy (get_channel_value _ ≫= _) =>
      apply tidy_bind; [apply calm_get_channel_value|intros ?]
  | |- tidy (get_current_state ≫= _) =>
      apply tidy_bind; [apply calm_pure; intros ?; eexists; reflexivity|intros ?]
  | |- tidy (ge_int _ _ ≫= _) => apply tidy_bind; [apply calm_ge_int|intros ?]
  | |- tidy (match ?x with _ => _ end) =>
      let E := fresh "E" in
      lazymatch type of x with
      | option (Z * Z) => destruct x as [[? ?]|] eqn:E
      | _ => destruct x eqn:E
      end
  | |- tidy (if ?b then _ else _) => let E := fresh "E" in destruct b eqn:E
  end.

(** On a controller with the device's 32 channels (or more) that
    satisfies the invariant, the range check of [send_dmx_packet] never
    fires for a method that computes channel and value itself: every
    pair the lamp, pattern, colour, strobe, node, drawing, distortion and
    reset methods hand to it is valid.  (The raw writes and
    [select_pattern], which passes its index on unchecked, are the calls
    that can trip it.) *)
Theorem methods_ask_for_valid_writes o s :
  chooses_own_value o = true → channel_invariant s → 32 <= num_channels s →
  never_refused (run o s).
Proof.
  intros Ho Hinv Hn. revert s Hinv Hn. change (tidy (run o)).
  destruct o; try discriminate Ho; cbn [run];
    try exact tidy_disconnect; try exact tidy_reset_all_channels;
    unfold set_pattern_size, select_gallery,
      set_pattern_zooming, set_pattern_rotation, set_horizontal_movement,
      set_vertical_movement, set_horizontal_zooming, set_vertical_zooming,
      set_forced_color, set_strobe_flash, set_node_highlighting,
      set_node_expansion, set_gradual_drawing, set_distortion_degree,
      set_second_lamp_pattern, set_pattern_library_selection,
      set_horizontal_flip, set_vertical_flip, set_color_change, blackout.
  all: try (repeat tidy_step; fail).
  all: unfold set_lamp_mode.
  all: destruct (dict_get lamp_modes _) as [[v|r]|] eqn:E.
  all: repeat tidy_step.
Qed.

Lemma methods_ask_for_valid_writes_witness :
  never_refused (run (OpSetColorChange "rgb_cycle" (Some 70)) (connected 32)).
Proof.
  apply (methods_ask_for_valid_writes (OpSetColorChange "rgb_cycle" (Some 70))
           (connected 32)).
  - reflexivity.
  - apply new_controller_invariant.
  - cbn. lia.
Defined.

(** ** Values outside 0 to 255 *)

(** A value outside [0, 255] never reaches the array.  The methods that
    check it themselves ([set_distortion_degree],
    [set_second_lamp_pattern], [set_node_expansion]) print their own text
    and send nothing.  [select_pattern] does not check: on a controller
    that holds a handle the value gets as far as [send_dmx_packet], which
    prints its warning and then sends the unchanged array once more. *)
Theorem value_outside_byte_range s port laser v :
  serial_port s = Some port → channel_invariant s → ¬ 0 <= v <= 255 →
  set_distortion_degree laser v s = (s, [Print MsgDegreeOutOfRange], inr tt)
  ∧ set_second_lamp_pattern v s = (s, [Print MsgPatternOutOfRange], inr tt)
  ∧ (∀ delay, set_node_expansion laser v delay s
              = (s, [Print MsgExpansionOutOfRange], inr tt))
  ∧ select_pattern laser v s
    = (s, [Print (MsgInvalidChannelOrValue (if laser =? 1 then 4 else 21) v);
           wire port (0 :: current_state s)], inr tt).
Proof.
  intros Hp [_ Hb] Hv.
  split; [|split; [|split]].
  - unfold set_distortion_degree.
    replace ((0 <=? v) && (v <=? 255)) with false by lia. reflexivity.
  - unfold set_second_lamp_pattern.
    replace ((0 <=? v) && (v <=? 255)) with false by lia. reflexivity.
  - intros delay. unfold set_node_expansion.
    replace ((0 <=? v) && (v <=? 255)) with false by lia. reflexivity.
  - unfold select_pattern. apply (set_channel_invalid s port _ v Hp Hb). lia.
Qed.

Lemma value_outside_byte_range_witness :
  select_pattern 1 256 (connected 32)
  = (connected 32,
     [Print (MsgInvalidChannelOrValue 4 256); SerialWrite (replicate 33 0)], inr tt).
Proof.
  apply (value_outside_byte_range (connected 32) {| is_open := true |} 1 256).
  - reflexivity.
  - apply new_controller_invariant.
  - lia.
Defined.
